(** * Canvas animation lifecycle of the portfolio page (src/main.js)

    A shallow embedding of the canvas system of [src/main.js]: the shared
    mouse tracker, the [AbstractCanvas] lifecycle (constructor, resize,
    start, stop, animate) and its five subclasses, followed by the
    properties of the lifecycle and of the effects.

    Conventions of the embedding.
    - Numbers that come from the window and loop counters over them are
      natural numbers ([N]): [window.innerWidth] and [window.innerHeight]
      are non-negative integers.  Coordinates, velocities and angles are
      JavaScript doubles; they are idealised as real numbers ([R]), with
      [Math.sqrt], [Math.cos], [Math.sin], [Math.atan2], [Math.max] and
      [Math.PI] read as their mathematical counterparts.
    - The browser is not part of the program.  What the program relies on
      is kept in a [Page] record: the document's element ids, the viewport,
      the scroll-dependent top of the canvas rectangle, the values that
      [Math.random] will return, the animation frame scheduler and the
      list of calls the program has made on the drawing context and on the
      window, in the order made.
    - A method of a class is a function on the page and on the fields of
      [this] that it reads or writes. *)

From Equations.Prop Require Import Equations Logic.
From Stdlib Require Import String Ascii NArith PArith ZArith List Bool Reals Lra
  Lia.
Import ListNotations.

Set Implicit Arguments.

(** ** Numbers *)

(** An integer of the window read as a JavaScript number. *)
Definition num (n : N) : R := IZR (Z.of_N n).

(** A value returned by [Math.random()]: a number in [0, 1). *)
Record Unit01 : Type := { sample :> R; sample_range : (0 <= sample < 1)%R }.

(** [Math.atan2(y, x)]. *)
Definition atan2 (y x : R) : R :=
  if Rlt_dec 0 x then atan (y / x)
  else if Rlt_dec x 0 then
         if Rle_dec 0 y then (atan (y / x) + PI)%R else (atan (y / x) - PI)%R
       else if Rlt_dec 0 y then (PI / 2)%R
            else if Rlt_dec y 0 then (- PI / 2)%R else 0%R.

(** The test [a < b] of an [if] statement on numbers. *)
Definition lt_num (a b : R) : bool := if Rlt_dec a b then true else false.

(** ** [for (let x = 0; x < limit; x += step)]

    The counter starts from [x], the body transforms what the loop has
    built so far.  The step is a positive integer (the only steps in the
    source are the literal [50] stored in [this.spacing] and [x++]). *)

Equations? for_lt {A : Type} (limit : N) (step : positive)
    (body : N -> A -> A) (x : N) (acc : A) : A
  by wf (N.to_nat (limit - x)) lt :=
  for_lt limit step body x acc with inspect (x <? limit)%N := {
    | exist _ true more => for_lt limit step body (x + Npos step)%N (body x acc)
    | exist _ false _ => acc }.
Proof. apply N.ltb_lt in more. lia. Qed.

(** ** The page *)

Definition handle := positive.
Bind Scope positive_scope with handle.

(** The shared mouse tracker: [const mouse = { x: -1000, y: -1000 }]. *)
Module Mouse.
Record t : Type := { x : R; y : R }.
Definition offscreen : t := {| x := -1000; y := -1000 |}.
End Mouse.

(** Calls made by the program, on the 2D context of the canvas, on the
    canvas element and on the window. *)
Inductive Call : Type :=
| getContext
| clearRect (x y w h : R)
| set_fillStyle (c : string)
| set_strokeStyle (c : string)
| set_lineWidth (w : R)
| beginPath
| arc (x y r a0 a1 : R)
| fill
| moveTo (x y : R)
| lineTo (x y : R)
| stroke
| save
| translate (x y : R)
| rotate (a : R)
| rect (x y w h : R)
| closePath
| restore
| set_canvas_width (w : N)
| set_canvas_height (h : N)
| observe (threshold : R)
| addEventListener (type : string)
| requestAnimationFrame_call (h : handle)
| cancelAnimationFrame_call (h : handle).

(** The animation frame scheduler of the window, restricted to the
    callbacks [() => this.animate()] of the session at hand.
    [requestAnimationFrame] queues a callback under a fresh handle, which
    is a positive integer; [cancelAnimationFrame] withdraws a queued
    callback.  A callback that the browser has already taken for execution
    is in flight: it runs even when its handle is cancelled meanwhile. *)
Record Scheduler : Type := {
  nextHandle : handle;
  queued : list handle;
  inflight : list handle
}.

Record Page : Type := {
  elements : list string;      (* ids present in the document *)
  innerWidth : N;
  innerHeight : N;
  rectTop : R;                 (* this.canvas.getBoundingClientRect().top *)
  mouse : Mouse.t;
  entropy : nat -> Unit01;     (* the n-th call of Math.random returns entropy n *)
  rolls : nat;                 (* number of calls of Math.random so far *)
  frames : Scheduler;
  calls : list Call
}.

Definition getElementById (p : Page) (id : string) : bool :=
  existsb (String.eqb id) (elements p).

Definition emit (cs : list Call) (p : Page) : Page :=
  {| elements := elements p; innerWidth := innerWidth p;
     innerHeight := innerHeight p; rectTop := rectTop p; mouse := mouse p;
     entropy := entropy p; rolls := rolls p; frames := frames p;
     calls := calls p ++ cs |}.

Definition random (p : Page) : Unit01 * Page :=
  (entropy p (rolls p),
   {| elements := elements p; innerWidth := innerWidth p;
      innerHeight := innerHeight p; rectTop := rectTop p; mouse := mouse p;
      entropy := entropy p; rolls := S (rolls p); frames := frames p;
      calls := calls p |}).

Definition with_frames (f : Scheduler) (p : Page) : Page :=
  {| elements := elements p; innerWidth := innerWidth p;
     innerHeight := innerHeight p; rectTop := rectTop p; mouse := mouse p;
     entropy := entropy p; rolls := rolls p; frames := f;
     calls := calls p |}.

Definition withdraw (h : handle) (hs : list handle) : list handle :=
  filter (fun k => negb (Pos.eqb k h)) hs.

Definition requestAnimationFrame (p : Page) : handle * Page :=
  let h := nextHandle (frames p) in
  (h, emit [requestAnimationFrame_call h]
        (with_frames {| nextHandle := Pos.succ h;
                        queued := queued (frames p) ++ [h];
                        inflight := inflight (frames p) |} p)).

Definition cancelAnimationFrame (h : handle) (p : Page) : Page :=
  emit [cancelAnimationFrame_call h]
    (with_frames {| nextHandle := nextHandle (frames p);
                    queued := withdraw h (queued (frames p));
                    inflight := inflight (frames p) |} p).

(** The window is resized to [w] x [h]. *)
Definition set_viewport (w h : N) (p : Page) : Page :=
  {| elements := elements p; innerWidth := w; innerHeight := h;
     rectTop := rectTop p; mouse := mouse p; entropy := entropy p;
     rolls := rolls p; frames := frames p; calls := calls p |}.

(** The page is scrolled: the canvas rectangle moves. *)
Definition set_rectTop (t : R) (p : Page) : Page :=
  {| elements := elements p; innerWidth := innerWidth p;
     innerHeight := innerHeight p; rectTop := t; mouse := mouse p;
     entropy := entropy p; rolls := rolls p; frames := frames p;
     calls := calls p |}.

(** The [mousemove] listener: [mouse.x = e.clientX; mouse.y = e.clientY]. *)
Definition on_mousemove (clientX clientY : R) (p : Page) : Page :=
  {| elements := elements p; innerWidth := innerWidth p;
     innerHeight := innerHeight p; rectTop := rectTop p;
     mouse := {| Mouse.x := clientX; Mouse.y := clientY |};
     entropy := entropy p; rolls := rolls p; frames := frames p;
     calls := calls p |}.

(** The browser takes the queued callback [h] for execution. *)
Definition take (h : handle) (p : Page) : Page :=
  if existsb (Pos.eqb h) (queued (frames p)) then
    with_frames {| nextHandle := nextHandle (frames p);
                   queued := withdraw h (queued (frames p));
                   inflight := inflight (frames p) ++ [h] |} p
  else p.

(** The callback in flight under [h] is about to run and leaves the
    scheduler. *)
Definition land (h : handle) (p : Page) : Page :=
  with_frames {| nextHandle := nextHandle (frames p);
                 queued := queued (frames p);
                 inflight := withdraw h (inflight (frames p)) |} p.

(** Some frame callback of the session can still execute. *)
Definition frame_pending (p : Page) : bool :=
  negb (match queued (frames p), inflight (frames p) with
        | [], [] => true
        | _, _ => false
        end).

(** A page as the script finds it: nothing called yet, mouse at its
    default, no callback of the session scheduled. *)
Definition page_load (ids : list string) (w h : N) (top : R)
    (rnd : nat -> Unit01) (first : handle) : Page :=
  {| elements := ids; innerWidth := w; innerHeight := h; rectTop := top;
     mouse := Mouse.offscreen; entropy := rnd; rolls := 0;
     frames := {| nextHandle := first; queued := []; inflight := [] |};
     calls := [] |}.

(** ** The subclass interface

    A subclass of [AbstractCanvas] supplies [init], and may supply [draw]
    and [onResize] (the base class tests [this.draw && ...] and
    [this.onResize && ...] before calling them).  [E] is the type of the
    fields the subclass adds to [this]; the two numbers are [this.width]
    and [this.height]. *)
Class Effect (E : Type) : Type := {
  init : N -> N -> Page -> E * Page;
  draw : option (N -> N -> E -> Page -> E * Page);
  onResize : option (N -> N -> E -> E)
}.

Definition neonPurple : string := "rgba(176, 38, 255, 0.4)".
Definition neonBlue : string := "rgba(78, 205, 196, 0.4)".

(** ** [class AbstractCanvas] *)

Module AbstractCanvas.

(** The fields of [this] once the constructor has run past its first
    test.  [this.ctx] is the context returned by the one [getContext]
    call; [this.canvas] is the element found. *)
Record Canvas (E : Type) : Type := {
  width : N;
  height : N;
  animationId : option handle;   (* null, or the handle of the last request *)
  isVisible : bool;
  fields : E                     (* the fields added by the subclass *)
}.

(** A session is what [new] returns.  When the element is absent the
    constructor returns at line 45 with [this.canvas] null and no other
    field set: the session is inert. *)
Inductive Session (E : Type) : Type :=
| Inert
| Live (c : Canvas E).
Arguments Inert {E}.

(** An uncaught exception. *)
Inductive Completion (A : Type) : Type :=
| Normal (a : A)
| TypeError.
Arguments TypeError {A}.

Section Methods.
Context {E : Type} {effect : Effect E}.

Definition World : Type := Page * Session E.

Definition set_animationId (a : option handle) (c : Canvas E) : Canvas E :=
  {| width := width c; height := height c; animationId := a;
     isVisible := isVisible c; fields := fields c |}.

Definition set_isVisible (v : bool) (c : Canvas E) : Canvas E :=
  {| width := width c; height := height c; animationId := animationId c;
     isVisible := v; fields := fields c |}.

Definition set_fields (e : E) (c : Canvas E) : Canvas E :=
  {| width := width c; height := height c; animationId := animationId c;
     isVisible := isVisible c; fields := e |}.

Definition set_size (w h : N) (c : Canvas E) : Canvas E :=
  {| width := w; height := h; animationId := animationId c;
     isVisible := isVisible c; fields := fields c |}.

(** [animate()] on a live session. *)
Definition animate_live (p : Page) (c : Canvas E) : Page * Canvas E :=
  if negb (isVisible c) then (p, c)
  else
    let p1 := emit [clearRect 0 0 (num (width c)) (num (height c))] p in
    let '(e, p2) :=
      match draw with
      | Some d => d (width c) (height c) (fields c) p1
      | None => (fields c, p1)
      end in
    let '(h, p3) := requestAnimationFrame p2 in
    (p3, set_animationId (Some h) (set_fields e c)).

(** [start()] on a live session. *)
Definition start_live (p : Page) (c : Canvas E) : Page * Canvas E :=
  match animationId c with
  | None => animate_live p c
  | Some _ => (p, c)
  end.

(** [stop()] on a live session. *)
Definition stop_live (p : Page) (c : Canvas E) : Page * Canvas E :=
  match animationId c with
  | Some h => (cancelAnimationFrame h p, set_animationId None c)
  | None => (p, c)
  end.

(** [resize()] on a live session. *)
Definition resize_live (p : Page) (c : Canvas E) : Page * Canvas E :=
  let p1 := emit [set_canvas_width (innerWidth p)] p in
  let c1 := set_size (innerWidth p) (height c) c in
  let p2 := emit [set_canvas_height (innerHeight p1)] p1 in
  let c2 := set_size (width c1) (innerHeight p1) c1 in
  match onResize with
  | Some f => (p2, set_fields (f (width c2) (height c2) (fields c2)) c2)
  | None => (p2, c2)
  end.

(** One entry handed to the observer's callback. *)
Definition on_entry (isIntersecting : bool) (pc : Page * Canvas E)
  : Page * Canvas E :=
  let '(p, c) := pc in
  if isIntersecting then start_live p (set_isVisible true c)
  else stop_live p (set_isVisible false c).

(** The callback of the [IntersectionObserver]:
    [entries.forEach((entry) => ...)]. *)
Definition on_intersection (entries : list bool) (p : Page) (c : Canvas E)
  : Page * Canvas E :=
  fold_left (fun pc entry => on_entry entry pc) entries (p, c).

Definition lift (pc : Page * Canvas E) : World := (fst pc, Live (snd pc)).

(** [new AbstractCanvas(canvasId)] (through a subclass). *)
Definition constructor (canvasId : string) (p : Page) : World :=
  if negb (getElementById p canvasId) then (p, Inert)
  else
    let p1 := emit [getContext] p in
    let w := innerWidth p1 in
    let h := innerHeight p1 in
    let '(e, p2) := init w h p1 in
    let p3 := emit [observe (1 / 10)] p2 in
    let p4 := emit [addEventListener "resize"] p3 in
    (p4, Live {| width := w; height := h; animationId := None;
                 isVisible := false; fields := e |}).

(** The methods called on a session.  On an inert session
    [this.animationId] and [this.isVisible] are undefined, hence falsy:
    [stop] skips its body, [start] calls [animate], which returns at
    its first line; [resize] throws on [this.canvas.width], the canvas
    being null, before anything is assigned. *)
Definition animate (w : World) : World :=
  match snd w with
  | Inert => w
  | Live c => lift (animate_live (fst w) c)
  end.

Definition start (w : World) : World :=
  match snd w with
  | Inert => animate w
  | Live c => lift (start_live (fst w) c)
  end.

Definition stop (w : World) : World :=
  match snd w with
  | Inert => w
  | Live c => lift (stop_live (fst w) c)
  end.

Definition resize (w : World) : Completion World :=
  match snd w with
  | Inert => TypeError
  | Live c => Normal (lift (resize_live (fst w) c))
  end.

(** *** What happens to a session

    The events the browser delivers and the method calls a script
    holding the session can make.  The observer and the resize
    listener exist only when the constructor went past line 45, so
    an inert session receives neither callback.  A frame is run in
    two moves: the browser takes a queued callback ([Taken]), then
    invokes it ([Frame]); between the two the callback is in flight. *)
Inductive Action : Type :=
| Intersection (entries : list bool)  (* observer callback *)
| WindowResize (w h : N)              (* the window gets a new size *)
| MouseMove (clientX clientY : R)
| Scroll (top : R)
| Taken (h : handle)
| Frame (h : handle)
| CallStart
| CallStop
| CallAnimate
| CallResize.

Definition perform (a : Action) (w : World) : World :=
  match a with
  | Intersection entries =>
      match snd w with
      | Inert => w
      | Live c => lift (on_intersection entries (fst w) c)
      end
  | WindowResize vw vh =>
      let p := set_viewport vw vh (fst w) in
      match snd w with
      | Inert => (p, Inert)
      | Live c => lift (resize_live p c)
      end
  | MouseMove cx cy => (on_mousemove cx cy (fst w), snd w)
  | Scroll t => (set_rectTop t (fst w), snd w)
  | Taken h => (take h (fst w), snd w)
  | Frame h =>
      if existsb (Pos.eqb h) (inflight (frames (fst w)))
      then animate (land h (fst w), snd w)
      else w
  | CallStart => start w
  | CallStop => stop w
  | CallAnimate => animate w
  | CallResize =>
      match resize w with
      | Normal w' => w'
      | TypeError => w
      end
  end.

Definition run (actions : list Action) (w : World) : World :=
  fold_left (fun w a => perform a w) actions w.

(** What the guards of [start], [stop] and [animate] see. *)
Definition running (w : World) : bool :=
  match snd w with
  | Live c => match animationId c with Some _ => true | None => false end
  | Inert => false
  end.

Definition visible (w : World) : bool :=
  match snd w with
  | Live c => isVisible c
  | Inert => false
  end.

End Methods.

(** The base class itself: [init() {}], no [draw], no [onResize]. *)
#[export] Instance base : Effect unit :=
  {| init := fun _ _ p => (tt, p); draw := None; onResize := None |}.

End AbstractCanvas.

(** ** Iteration helpers *)

(** [array.forEach((item) => ...)] where the callback updates the item in
    place and may call the page. *)
Fixpoint forEach {A : Type} (f : A -> Page -> A * Page) (items : list A)
    (p : Page) : list A * Page :=
  match items with
  | [] => ([], p)
  | item :: rest =>
      let '(item', p1) := f item p in
      let '(rest', p2) := forEach f rest p1 in
      (item' :: rest', p2)
  end.

(** [for (let i = 0; i < n; i++) array.push(make())]. *)
Definition push_n {A : Type} (n : N) (make : Page -> A * Page)
    (start : list A * Page) : list A * Page :=
  for_lt n 1 (fun _ acc => let '(a, p) := make (snd acc) in (fst acc ++ [a], p))
    0%N start.

Local Open Scope R_scope.

(** ** 1. [class HeroCanvas] *)

Module HeroCanvas.

Record Particle : Type := { x : R; y : R; vx : R; vy : R; size : R }.

Record Fields : Type := { particles : list Particle; count : N }.

Definition createParticle (width height : N) (p : Page) : Particle * Page :=
  let '(r1, p1) := random p in
  let '(r2, p2) := random p1 in
  let '(r3, p3) := random p2 in
  let '(r4, p4) := random p3 in
  let '(r5, p5) := random p4 in
  ({| x := r1 * num width; y := r2 * num height;
      vx := (r3 - 0.5) * 1.5; vy := (r4 - 0.5) * 1.5;
      size := r5 * 2 + 1 |}, p5).

Definition init (width height : N) (p : Page) : Fields * Page :=
  let count := 80%N in
  let '(ps, p') := push_n count (createParticle width height) ([], p) in
  ({| particles := ps; count := count |}, p').

(** The first statements of the [forEach] callback: move, then bounce. *)
Definition advance (width height : N) (q : Particle) : Particle :=
  let x1 := x q + vx q in
  let y1 := y q + vy q in
  let vx1 := if lt_num x1 0 || lt_num (num width) x1 then vx q * -1 else vx q in
  let vy1 := if lt_num y1 0 || lt_num (num height) y1 then vy q * -1 else vy q in
  {| x := x1; y := y1; vx := vx1; vy := vy1; size := size q |}.

(** The body of the inner loop, for the particle [p2 = this.particles[j]]. *)
Definition connection (q p2 : Particle) : list Call :=
  let dx := x q - x p2 in
  let dy := y q - y p2 in
  let dist := sqrt (dx * dx + dy * dy) in
  if lt_num dist 150 then
    [beginPath; set_strokeStyle neonBlue; set_lineWidth 0.5;
     moveTo (x q) (y q); lineTo (x p2) (y p2); stroke]
  else [].

(** [this.particles.forEach((p, i) => ...)]: the inner loop runs over the
    particles after [p], which this frame has not moved yet. *)
Fixpoint each (width height : N) (ps : list Particle)
  : list Particle * list Call :=
  match ps with
  | [] => ([], [])
  | q :: rest =>
      let q' := advance width height q in
      let cs := [beginPath; arc (x q') (y q') (size q') 0 (PI * 2); fill]
                  ++ flat_map (connection q') rest in
      let '(rest', cs') := each width height rest in
      (q' :: rest', cs ++ cs')
  end.

Definition draw (width height : N) (f : Fields) (p : Page) : Fields * Page :=
  let p1 := emit [set_fillStyle "rgba(26, 26, 26, 0.6)"] p in
  let '(ps, cs) := each width height (particles f) in
  ({| particles := ps; count := count f |}, emit cs p1).

#[export] Instance effect : Effect Fields :=
  Build_Effect init (Some draw) None.

End HeroCanvas.

(** ** 2. [class AboutCanvas]: repulsive grid *)

Module AboutCanvas.

Record Dot : Type := { originX : R; originY : R; x : R; y : R }.

Record Fields : Type := { dots : list Dot; spacing : positive }.

(** [{ originX: x, originY: y, x: x, y: y }]. *)
Definition dot_at (xy : N * N) : Dot :=
  {| originX := num (fst xy); originY := num (snd xy);
     x := num (fst xy); y := num (snd xy) |}.

Definition createDots (width height : N) (f : Fields) : Fields :=
  {| dots :=
       for_lt width (spacing f)
         (fun x acc =>
            for_lt height (spacing f) (fun y acc => acc ++ [dot_at (x, y)])
              0%N acc)
         0%N [];
     spacing := spacing f |}.

Definition init (width height : N) (p : Page) : Fields * Page :=
  (createDots width height {| dots := []; spacing := 50 |}, p).

Definition onResize (width height : N) (f : Fields) : Fields :=
  createDots width height f.

(** The distance and the force computed for one dot. *)
Definition dx (m : Mouse.t) (d : Dot) : R := Mouse.x m - x d.
Definition dy (m : Mouse.t) (top : R) (d : Dot) : R := Mouse.y m - (y d + top).
Definition dist (m : Mouse.t) (top : R) (d : Dot) : R :=
  sqrt (dx m d * dx m d + dy m top d * dy m top d).
Definition force (m : Mouse.t) (top : R) (d : Dot) : R :=
  Rmax 0 (150 - dist m top d) / 150.

Definition move_dot (m : Mouse.t) (top : R) (d : Dot) : Dot :=
  let angle := atan2 (dy m top d) (dx m d) in
  let move := force m top d * 40 in
  {| originX := originX d; originY := originY d;
     x := x d + (originX d - cos angle * move - x d) * 0.1;
     y := y d + (originY d - sin angle * move - y d) * 0.1 |}.

Definition draw_dot (d : Dot) (p : Page) : Dot * Page :=
  let d' := move_dot (mouse p) (rectTop p) d in
  (d', emit [beginPath; arc (x d') (y d') 2 0 (PI * 2); fill] p).

Definition draw (width height : N) (f : Fields) (p : Page) : Fields * Page :=
  let p1 := emit [set_fillStyle neonPurple] p in
  let '(ds, p2) := forEach draw_dot (dots f) p1 in
  ({| dots := ds; spacing := spacing f |}, p2).

#[export] Instance effect : Effect Fields :=
  Build_Effect init (Some draw) (Some onResize).

End AboutCanvas.

(** ** 3. [class SkillsCanvas]: floating shapes *)

Module SkillsCanvas.

Inductive Kind : Type := square | triangle.

Record Shape : Type := {
  x : R; y : R; size : R; angle : R; speed : R; rotSpeed : R; type : Kind
}.

Record Fields : Type := { shapes : list Shape }.

Definition createShape (width height : N) (p : Page) : Shape * Page :=
  let '(r1, p1) := random p in
  let '(r2, p2) := random p1 in
  let '(r3, p3) := random p2 in
  let '(r4, p4) := random p3 in
  let '(r5, p5) := random p4 in
  let '(r6, p6) := random p5 in
  let '(r7, p7) := random p6 in
  ({| x := r1 * num width; y := r2 * num height; size := r3 * 30 + 10;
      angle := r4 * PI * 2; speed := r5 * 0.5 + 0.2;
      rotSpeed := (r6 - 0.5) * 0.02;
      type := if lt_num 0.5 r7 then square else triangle |}, p7).

Definition init (width height : N) (p : Page) : Fields * Page :=
  let '(ss, p') := push_n 15 (createShape width height) ([], p) in
  ({| shapes := ss |}, p').

(** [shape.y -= shape.speed; shape.angle += shape.rotSpeed]. *)
Definition drift (s : Shape) : Shape :=
  {| x := x s; y := y s - speed s; size := size s;
     angle := angle s + rotSpeed s; speed := speed s;
     rotSpeed := rotSpeed s; type := type s |}.

(** The distance computed for one shape, after its drift. *)
Definition dy (m : Mouse.t) (top : R) (s : Shape) : R := Mouse.y m - (y s + top).
Definition dx (m : Mouse.t) (s : Shape) : R := Mouse.x m - x s.
Definition dist (m : Mouse.t) (top : R) (s : Shape) : R :=
  sqrt (dx m s * dx m s + dy m top s * dy m top s).

(** [if (dist < 200) shape.x -= dx / dist]. *)
Definition avoid (m : Mouse.t) (top : R) (s : Shape) : Shape :=
  if lt_num (dist m top s) 200 then
    {| x := x s - dx m s / dist m top s; y := y s; size := size s;
       angle := angle s; speed := speed s; rotSpeed := rotSpeed s;
       type := type s |}
  else s.

(** [if (shape.y < -50) shape.y = this.height + 50]. *)
Definition recycle (height : N) (s : Shape) : Shape :=
  if lt_num (y s) (-50) then
    {| x := x s; y := num height + 50; size := size s; angle := angle s;
       speed := speed s; rotSpeed := rotSpeed s; type := type s |}
  else s.

Definition outline (s : Shape) : list Call :=
  match type s with
  | square => [rect (- size s / 2) (- size s / 2) (size s) (size s)]
  | triangle =>
      [moveTo 0 (- size s / 2); lineTo (size s / 2) (size s / 2);
       lineTo (- size s / 2) (size s / 2); closePath]
  end.

Definition draw_shape (height : N) (s : Shape) (p : Page) : Shape * Page :=
  let s' := recycle height (avoid (mouse p) (rectTop p) (drift s)) in
  (s', emit ([save; translate (x s') (y s'); rotate (angle s'); beginPath]
               ++ outline s' ++ [stroke; restore]) p).

Definition draw (width height : N) (f : Fields) (p : Page) : Fields * Page :=
  let p1 := emit [set_strokeStyle neonPurple; set_lineWidth 1.5] p in
  let '(ss, p2) := forEach (draw_shape height) (shapes f) p1 in
  ({| shapes := ss |}, p2).

#[export] Instance effect : Effect Fields :=
  Build_Effect init (Some draw) None.

End SkillsCanvas.

(** ** 4. [class ProjectsCanvas]: sine waves *)

Module ProjectsCanvas.

Record Fields : Type := { offset : R }.

Definition init (width height : N) (p : Page) : Fields * Page :=
  ({| offset := 0 |}, p).

(** The point added for column [x] of wave [i]. *)
Definition wave_point (height : N) (offset : R) (i x : N) : Call :=
  let y := num height / 2
           + sin (num x * 0.01 + offset + num i) * 50
           + sin (num x * 0.005 + offset * 0.5) * 100 in
  lineTo (num x) (y + num i * 20).

Definition wave (width height : N) (offset : R) (i : N) : list Call :=
  [beginPath]
    ++ for_lt width 1 (fun x cs => cs ++ [wave_point height offset i x]) 0%N []
    ++ [stroke].

Definition draw (width height : N) (f : Fields) (p : Page) : Fields * Page :=
  let offset' := offset f + 0.05 in
  let p1 := emit [set_strokeStyle "rgba(176, 38, 255, 0.2)"; set_lineWidth 2] p in
  ({| offset := offset' |},
   for_lt 5 1 (fun i q => emit (wave width height offset' i) q) 0%N p1).

#[export] Instance effect : Effect Fields :=
  Build_Effect init (Some draw) None.

End ProjectsCanvas.

(** ** 5. [class ContactCanvas]: gravity particles *)

Module ContactCanvas.

Record Particle : Type := { x : R; y : R; vx : R; vy : R; friction : R }.

Record Fields : Type := { particles : list Particle }.

Definition createParticle (width height : N) (p : Page) : Particle * Page :=
  let '(r1, p1) := random p in
  let '(r2, p2) := random p1 in
  ({| x := r1 * num width; y := r2 * num height; vx := 0; vy := 0;
      friction := 0.95 |}, p2).

Definition init (width height : N) (p : Page) : Fields * Page :=
  let '(ps, p') := push_n 50 (createParticle width height) ([], p) in
  ({| particles := ps |}, p').

(** The distance computed for one particle. *)
Definition dx (m : Mouse.t) (q : Particle) : R := Mouse.x m - x q.
Definition dy (m : Mouse.t) (top : R) (q : Particle) : R := Mouse.y m - top - y q.
Definition dist (m : Mouse.t) (top : R) (q : Particle) : R :=
  sqrt (dx m q * dx m q + dy m top q * dy m top q).

(** [if (dist < 300) { p.vx += dx * 0.001; p.vy += dy * 0.001; }]. *)
Definition attract (m : Mouse.t) (top : R) (q : Particle) : Particle :=
  if lt_num (dist m top q) 300 then
    {| x := x q; y := y q; vx := vx q + dx m q * 0.001;
       vy := vy q + dy m top q * 0.001; friction := friction q |}
  else q.

(** Motion and friction, then the random movement of [p.x] by
    [jitter = Math.random()]. *)
Definition glide (jitter : R) (q : Particle) : Particle :=
  {| x := x q + vx q + (jitter - 0.5); y := y q + vy q;
     vx := vx q * friction q; vy := vy q * friction q;
     friction := friction q |}.

(** The four wrap-around tests, in the order of the source. *)
Definition wrap (width height : N) (q : Particle) : Particle :=
  let x1 := if lt_num (x q) 0 then num width else x q in
  let x2 := if lt_num (num width) x1 then 0 else x1 in
  let y1 := if lt_num (y q) 0 then num height else y q in
  let y2 := if lt_num (num height) y1 then 0 else y1 in
  {| x := x2; y := y2; vx := vx q; vy := vy q; friction := friction q |}.

(** [rect] is read once per frame, before the loop. *)
Definition draw_particle (width height : N) (top : R) (q : Particle)
    (p : Page) : Particle * Page :=
  let q1 := attract (mouse p) top q in
  let '(jitter, p1) := random p in
  let q2 := wrap width height (glide jitter q1) in
  (q2, emit [beginPath; arc (x q2) (y q2) 2 0 (PI * 2); fill] p1).

Definition draw (width height : N) (f : Fields) (p : Page) : Fields * Page :=
  let p1 := emit [set_fillStyle neonPurple] p in
  let top := rectTop p1 in
  let '(ps, p2) := forEach (draw_particle width height top) (particles f) p1 in
  ({| particles := ps |}, p2).

#[export] Instance effect : Effect Fields :=
  Build_Effect init (Some draw) None.

End ContactCanvas.

(** ** The script: [new HeroCanvas("hero-canvas")] and the four others *)

Definition new_HeroCanvas := AbstractCanvas.constructor (effect := HeroCanvas.effect).
Definition new_AboutCanvas := AbstractCanvas.constructor (effect := AboutCanvas.effect).
Definition new_SkillsCanvas := AbstractCanvas.constructor (effect := SkillsCanvas.effect).
Definition new_ProjectsCanvas := AbstractCanvas.constructor (effect := ProjectsCanvas.effect).
Definition new_ContactCanvas := AbstractCanvas.constructor (effect := ContactCanvas.effect).

(** ** Vocabulary of the statements *)

Import AbstractCanvas.

#[export] Existing Instance HeroCanvas.effect.
#[export] Existing Instance AboutCanvas.effect.
#[export] Existing Instance SkillsCanvas.effect.
#[export] Existing Instance ProjectsCanvas.effect.
#[export] Existing Instance ContactCanvas.effect.

(** A sample of [Math.random] and a page to run examples on: the five
    canvases present, an 800 x 600 viewport, nothing scrolled. *)
Definition zero01 : Unit01 :=
  {| sample := 0; sample_range := conj (Rle_refl 0) Rlt_0_1 |}.

Definition demo_page : Page :=
  page_load
    ["hero-canvas"; "canvas-about"; "canvas-skills"; "canvas-projects";
     "canvas-contact"]%string
    800 600 0 (fun _ => zero01) 1.

(** The session has a render loop handle exactly when it is visible; and
    the weaker direction, a handle only when visible. *)
Definition agrees {E : Type} (w : @World E) : Prop := running w = visible w.
Definition sound {E : Type} (w : @World E) : Prop :=
  running w = true -> visible w = true.

Definition has_handle {E : Type} (c : Canvas E) : bool :=
  match animationId c with Some _ => true | None => false end.

(** Kinds of actions. *)
Definition direct_stop (a : Action) : bool :=
  match a with CallStop => true | _ => false end.


Definition mouse_still (a : Action) : bool :=
  match a with MouseMove _ _ => false | _ => true end.

(** Number of frame callbacks of the session that the browser still holds. *)
Definition active_loops (p : Page) : nat :=
  (length (queued (frames p)) + length (inflight (frames p)))%nat.

(** What the page itself does to a session: the observer's callback, the
    window events, and whole frames, where the browser takes a queued
    callback and runs it at once.  No method is called from outside. *)
Definition browser_event (a : Action) : bool :=
  match a with
  | Intersection _ | WindowResize _ _ | MouseMove _ _ | Scroll _ => true
  | _ => false
  end.

Fixpoint driven (actions : list Action) : bool :=
  match actions with
  | [] => true
  | Taken h :: Frame k :: rest => Pos.eqb h k && driven rest
  | a :: rest => browser_event a && driven rest
  end.

(** The browser holds exactly the callback whose handle the session keeps. *)
Definition single_loop {E : Type} (w : @World E) : Prop :=
  inflight (frames (fst w)) = [] /\
  queued (frames (fst w)) =
    match snd w with
    | Live c => match animationId c with Some h => [h] | None => [] end
    | Inert => []
    end.

Definition steady {E : Type} (w : @World E) : Prop := agrees w /\ single_loop w.

(** The methods of a subclass leave the scheduler alone. *)
Definition quiet {E : Type} (effect : Effect E) : Prop :=
  (forall w h p, frames (snd (init w h p)) = frames p) /\
  (forall d, draw = Some d ->
             forall w h e p, frames (snd (d w h e p)) = frames p).


(** The size a session has recorded, if it has recorded one. *)
Definition recorded_size {E : Type} (s : Session E) : option (N * N) :=
  match s with
  | Live c => Some (width c, height c)
  | Inert => None
  end.

(** The entities of a session: those of its effect, none when inert. *)
Definition entities {E A : Type} (get : E -> list A) (w : @World E) : list A :=
  match snd w with
  | Live c => get (fields c)
  | Inert => []
  end.

(** The ceiling of [a / b]. *)
Definition ceil_div (a : N) (b : positive) : N := ((a + Npos b - 1) / Npos b)%N.

(** [0; 1; ...; n - 1]. *)
Definition range (n : nat) : list N := map N.of_nat (seq 0 n).

(** What "no force" means for an entity of each effect that reads the
    mouse, for every scroll position [top]: the distance computed by the
    frame step is beyond the largest radius (300), and the step of the
    code that applies the force does nothing.  For a dot, the force
    computed by [AboutCanvas.force] is zero and [AboutCanvas.move_dot]
    only relaxes the dot towards its origin by a tenth of the way; for a
    shape, [SkillsCanvas.avoid] returns the drifted shape as it is; for a
    particle, [ContactCanvas.attract] returns the particle as it is. *)
Definition dot_unaffected (m : Mouse.t) (d : AboutCanvas.Dot) : Prop :=
  forall top,
    300 < AboutCanvas.dist m top d /\ AboutCanvas.force m top d = 0 /\
    AboutCanvas.move_dot m top d =
    {| AboutCanvas.originX := AboutCanvas.originX d;
       AboutCanvas.originY := AboutCanvas.originY d;
       AboutCanvas.x :=
         AboutCanvas.x d + (AboutCanvas.originX d - AboutCanvas.x d) * 0.1;
       AboutCanvas.y :=
         AboutCanvas.y d + (AboutCanvas.originY d - AboutCanvas.y d) * 0.1 |}.

Definition shape_unaffected (m : Mouse.t) (s : SkillsCanvas.Shape) : Prop :=
  forall top,
    300 < SkillsCanvas.dist m top (SkillsCanvas.drift s) /\
    lt_num (SkillsCanvas.dist m top (SkillsCanvas.drift s)) 200 = false /\
    SkillsCanvas.avoid m top (SkillsCanvas.drift s) = SkillsCanvas.drift s /\
    forall h p,
      mouse p = m -> rectTop p = top ->
      fst (SkillsCanvas.draw_shape h s p) =
      SkillsCanvas.recycle h (SkillsCanvas.drift s).

Definition particle_unaffected (m : Mouse.t) (q : ContactCanvas.Particle) : Prop :=
  forall top,
    300 < ContactCanvas.dist m top q /\
    lt_num (ContactCanvas.dist m top q) 300 = false /\
    ContactCanvas.attract m top q = q /\
    forall w h p,
      mouse p = m ->
      fst (ContactCanvas.draw_particle w h top q p) =
      ContactCanvas.wrap w h (ContactCanvas.glide (fst (random p)) q).

(** Invariants of the effects while the mouse rests at its default: the
    entities stay at non-negative abscissas. *)
Definition dot_onscreen (d : AboutCanvas.Dot) : Prop :=
  0 <= AboutCanvas.x d /\ 0 <= AboutCanvas.originX d.

Definition shape_onscreen (s : SkillsCanvas.Shape) : Prop :=
  0 <= SkillsCanvas.x s.

Definition particle_onscreen (q : ContactCanvas.Particle) : Prop :=
  0 <= ContactCanvas.x q.

(** The mouse is at its default and the fields of the effect satisfy [P]. *)
Definition at_rest {E : Type} (P : E -> Prop) (w : @World E) : Prop :=
  mouse (fst w) = Mouse.offscreen /\
  match snd w with Live c => P (fields c) | Inert => True end.

(** A gravity particle lies on the canvas. *)
Definition in_bounds (width height : N) (q : ContactCanvas.Particle) : Prop :=
  0 <= ContactCanvas.x q <= num width /\ 0 <= ContactCanvas.y q <= num height.

Definition all_in_bounds (w : @World ContactCanvas.Fields) : Prop :=
  match snd w with
  | Live c => Forall (in_bounds (width c) (height c))
                (ContactCanvas.particles (fields c))
  | Inert => True
  end.

(** ** Vocabulary of the further properties *)

(** Kinds of actions: the observer's callback; what runs [resize]. *)
Definition observer_reports (a : Action) : bool :=
  match a with Intersection _ => true | _ => false end.

Definition resizes (a : Action) : bool :=
  match a with WindowResize _ _ | CallResize => true | _ => false end.

(** The draw routine of a subclass only adds calls to those made. *)
Definition appending {E : Type} (effect : Effect E) : Prop :=
  forall d, draw = Some d ->
            forall w h e p, exists cs, calls (snd (d w h e p)) = calls p ++ cs.

(** A property of the size and the fields of a session, when it is live. *)
Definition keeps {E : Type} (Inv : N -> N -> E -> Prop) (w : @World E) : Prop :=
  match snd w with
  | Live c => Inv (width c) (height c) (fields c)
  | Inert => True
  end.

(** What [resize] makes of the fields. *)
Definition resized_fields {E : Type} {effect : Effect E} (w h : N) (e : E) : E :=
  match onResize with
  | Some hook => hook w h e
  | None => e
  end.

(** Hidden, idle, and the next handle of the scheduler is [n]. *)
Definition dormant {E : Type} (n : handle) (w : @World E) : Prop :=
  visible w = false /\ running w = false /\ nextHandle (frames (fst w)) = n.

(** A property of the size and the fields that [resize] cannot break. *)
Definition resize_stable {E : Type} {effect : Effect E}
    (Inv : N -> N -> E -> Prop) : Prop :=
  forall w h w' h' e, Inv w h e -> Inv w' h' (resized_fields w' h' e).

(** The frame callbacks the browser holds follow the visibility: one when
    the session is visible, none when it is hidden, none in flight. *)
Definition frames_follow_visibility {E : Type} (w : @World E) : Prop :=
  inflight (frames (fst w)) = [] /\
  active_loops (fst w) = (if visible w then 1 else 0)%nat /\
  (visible w = false -> frame_pending (fst w) = false).

(** A coordinate [x] moving at [v] is on the canvas side [0, limit], or
    will be after its next move. *)
Definition tethered (limit : N) (x v : R) : Prop :=
  0 <= x <= num limit \/ 0 <= x + v <= num limit.

Definition hero_particle_ok (width height : N) (q : HeroCanvas.Particle) : Prop :=
  tethered width (HeroCanvas.x q) (HeroCanvas.vx q) /\
  tethered height (HeroCanvas.y q) (HeroCanvas.vy q) /\
  -0.75 <= HeroCanvas.vx q <= 0.75 /\
  -0.75 <= HeroCanvas.vy q <= 0.75 /\
  1 <= HeroCanvas.size q < 3.

Definition hero_particle_near (width height : N) (q : HeroCanvas.Particle) : Prop :=
  -0.75 <= HeroCanvas.x q <= num width + 0.75 /\
  -0.75 <= HeroCanvas.y q <= num height + 0.75.

(** A dot of the grid is within 40 of its origin on each axis. *)
Definition dot_near_origin (d : AboutCanvas.Dot) : Prop :=
  -40 <= AboutCanvas.x d - AboutCanvas.originX d <= 40 /\
  -40 <= AboutCanvas.y d - AboutCanvas.originY d <= 40.

(** The ranges of what the setup of a floating shape draws at random, and
    the floor of its ordinate. *)
Definition shape_ok (s : SkillsCanvas.Shape) : Prop :=
  10 <= SkillsCanvas.size s < 40 /\
  0.2 <= SkillsCanvas.speed s < 0.7 /\
  -0.01 <= SkillsCanvas.rotSpeed s <= 0.01 /\
  -50 <= SkillsCanvas.y s.

(** A call of a wave of index [i]: a point within 150 of the wave's
    baseline, or the path's begin or stroke. *)
Definition wave_call_bounded (height i : N) (c : Call) : Prop :=
  match c with
  | lineTo _ y =>
      num height / 2 + num i * 20 - 150 <= y <= num height / 2 + num i * 20 + 150
  | beginPath | stroke => True
  | _ => False
  end.

(** The friction and the speed limit of a gravity particle. *)
Definition particle_ok (q : ContactCanvas.Particle) : Prop :=
  ContactCanvas.friction q = 0.95 /\
  -5.7 <= ContactCanvas.vx q <= 5.7 /\
  -5.7 <= ContactCanvas.vy q <= 5.7.

Definition particle_still (q : ContactCanvas.Particle) : Prop :=
  0 <= ContactCanvas.x q /\ ContactCanvas.vx q = 0 /\ ContactCanvas.vy q = 0.

(** ** The rest of the script *)

(** The easing of the smooth scroll (lines 12 and 440):
    [(t) => Math.min(1, 1.001 - Math.pow(2, -10 * t))], over the real
    numbers.  The code computes in doubles, whose results differ from the
    real ones by rounding: at [t = 0] the code gives
    [0.0009999999999998899], the real expression [0.001].  Only bounds and
    comparisons that such rounding cannot reverse are stated of it. *)
Definition easing (t : R) : R := Rmin 1 (1.001 - Rpower 2 (-10 * t)).

(** [splitText] (lines 337-349): the markup written to [el.innerHTML],
    [text.split("").map((char) => ...).join("")].  Characters are those
    of [string]. *)
Definition dquote : string := String "034"%char EmptyString.

Definition char_span (char : ascii) : string :=
  if Ascii.eqb char " "%char then "&nbsp;"%string
  else ("<span class=" ++ dquote ++ "char-span" ++ dquote ++ ">"
          ++ String char "</span>")%string.

Fixpoint splitText_markup (text : string) : string :=
  match text with
  | EmptyString => EmptyString
  | String char rest => (char_span char ++ splitText_markup rest)%string
  end.

(** A dot fresh from [createDots]: at rest on its origin, which is a grid
    point of the canvas. *)
Definition dot_on_grid (width height : N) (spacing : positive)
    (d : AboutCanvas.Dot) : Prop :=
  AboutCanvas.x d = AboutCanvas.originX d /\
  AboutCanvas.y d = AboutCanvas.originY d /\
  exists a b : N,
    AboutCanvas.originX d = num a /\ AboutCanvas.originY d = num b /\
    (a < width)%N /\ (b < height)%N /\
    (Npos spacing | a)%N /\ (Npos spacing | b)%N.

(** Examples to run the further properties on: a visible session of the
    hero effect without particles, and a floating shape. *)
Definition demo_canvas : Canvas HeroCanvas.Fields :=
  {| width := 800; height := 600; animationId := None; isVisible := true;
     fields := {| HeroCanvas.particles := []; HeroCanvas.count := 80 |} |}.

Definition demo_shape : SkillsCanvas.Shape :=
  {| SkillsCanvas.x := 100; SkillsCanvas.y := 100; SkillsCanvas.size := 20;
     SkillsCanvas.angle := 0; SkillsCanvas.speed := 0.5;
     SkillsCanvas.rotSpeed := 0.01; SkillsCanvas.type := SkillsCanvas.square |}.

(** * Properties *)

(** ** Loops *)

Lemma for_lt_step (A : Type) (limit : N) (step : positive)
    (body : N -> A -> A) (x : N) (acc : A) :
  for_lt limit step body x acc =
  if (x <? limit)%N then for_lt limit step body (x + Npos step)%N (body x acc)
  else acc.
Proof.
  rewrite for_lt_equation_1.
  destruct (inspect (x <? limit)%N) as [[] e]; simpl; rewrite e; reflexivity.
Qed.

Lemma for_lt_invariant (A : Type) (P : A -> Prop) (limit : N) (step : positive)
    (body : N -> A -> A) :
  (forall x a, P a -> P (body x a)) ->
  forall x acc, P acc -> P (for_lt limit step body x acc).
Proof.
  intros Hbody x acc. funelim (for_lt limit step body x acc); intros Hacc.
  - apply H; auto.
  - exact Hacc.
Qed.

Lemma push_n_invariant (A : Type) (P : list A * Page -> Prop) (n : N)
    (make : Page -> A * Page) :
  (forall l p, P (l, p) -> P (l ++ [fst (make p)], snd (make p))) ->
  forall start, P start -> P (push_n n make start).
Proof.
  intros Hm start Hs. unfold push_n. apply for_lt_invariant; [|exact Hs].
  intros _ [l p] H. simpl. specialize (Hm l p H). destruct (make p); exact Hm.
Qed.

Lemma forEach_Forall (A : Type) (Q0 Q : A -> Prop) (I : Page -> Prop)
    (f : A -> Page -> A * Page) :
  (forall a p, Q0 a -> I p -> Q (fst (f a p)) /\ I (snd (f a p))) ->
  forall items p, Forall Q0 items -> I p ->
    Forall Q (fst (forEach f items p)) /\ I (snd (forEach f items p)).
Proof.
  intros Hf. induction items as [|a items IH]; intros p Hq Hp; simpl.
  - auto.
  - inversion Hq as [|? ? Ha Hitems]; subst.
    destruct (Hf a p Ha Hp) as [Hq' Hi]. destruct (f a p) as [a' p1]. simpl in *.
    destruct (IH p1 Hitems Hi) as [Hqs Hi']. destruct (forEach f items p1) as [r p2].
    simpl in *. auto.
Qed.

(** The number of rounds of a loop is the ceiling of what is left over the
    step. *)
Lemma ceil_div_done (limit x : N) (step : positive) :
  (limit <= x)%N -> ceil_div (limit - x) step = 0%N.
Proof.
  intros H. unfold ceil_div. replace (limit - x)%N with 0%N by lia.
  apply N.div_small. lia.
Qed.

Lemma ceil_div_round (limit x : N) (step : positive) :
  (x < limit)%N ->
  ceil_div (limit - x) step = (1 + ceil_div (limit - (x + Npos step)) step)%N.
Proof.
  intros H. unfold ceil_div.
  destruct (N.le_gt_cases (x + Npos step) limit) as [Hle | Hgt].
  - replace (limit - x + Npos step - 1)%N
      with (limit - (x + Npos step) + Npos step - 1 + 1 * Npos step)%N by lia.
    rewrite N.div_add by lia. lia.
  - replace (limit - (x + Npos step))%N with 0%N by lia.
    rewrite (N.div_small (0 + Npos step - 1)) by lia.
    symmetry. apply N.div_unique with (r := (limit - x - 1)%N); lia.
Qed.

(** [ceil_div a b] is the least [n] with [a <= n * b]. *)
Lemma ceil_div_spec (a : N) (b : positive) :
  (a <= ceil_div a b * Npos b)%N /\
  (forall n, a <= n * Npos b -> ceil_div a b <= n)%N.
Proof.
  unfold ceil_div. split.
  - pose proof (N.div_mod (a + Npos b - 1) (Npos b)) as Hdm.
    pose proof (N.mod_lt (a + Npos b - 1) (Npos b)) as Hlt.
    specialize (Hdm ltac:(lia)). specialize (Hlt ltac:(lia)). nia.
  - intros n Hn. apply N.lt_succ_r.
    apply N.Div0.div_lt_upper_bound. nia.
Qed.

(** A loop whose body adds [m] items to a list adds [m] items per round. *)
Lemma for_lt_length (A : Type) (m : nat) (limit : N) (step : positive)
    (body : N -> list A -> list A) :
  (forall x acc, length (body x acc) = (length acc + m)%nat) ->
  forall x acc,
    length (for_lt limit step body x acc) =
    (length acc + m * N.to_nat (ceil_div (limit - x) step))%nat.
Proof.
  intros Hbody x.
  remember (N.to_nat (limit - x)) as k eqn:Hk. revert x Hk.
  induction k as [k IH] using lt_wf_ind. intros x Hk acc.
  rewrite for_lt_step. destruct (x <? limit)%N eqn:Hlt.
  - apply N.ltb_lt in Hlt.
    rewrite (IH (N.to_nat (limit - (x + Npos step)))) by lia.
    rewrite Hbody, (ceil_div_round step Hlt). lia.
  - apply N.ltb_ge in Hlt. rewrite (ceil_div_done step Hlt). lia.
Qed.

(** ** Numbers *)

Lemma num_nonneg n : 0 <= num n.
Proof. unfold num. apply IZR_le. lia. Qed.

Lemma lt_num_false a b : lt_num a b = false <-> b <= a.
Proof.
  unfold lt_num. destruct (Rlt_dec a b); split; intros; auto; try discriminate; lra.
Qed.

Lemma unit01_scaled (r : Unit01) n : 0 <= r * num n <= num n.
Proof.
  pose proof (sample_range r) as Hr. pose proof (num_nonneg n) as Hn. split; nra.
Qed.

(** An entity at a non-negative abscissa is at least 1000 away from the
    default mouse position, wherever it is vertically. *)
Lemma far_away x dy : 0 <= x -> 1000 <= sqrt ((-1000 - x) * (-1000 - x) + dy * dy).
Proof.
  intros Hx. rewrite <- (sqrt_square 1000) at 1 by lra.
  apply sqrt_le_1_alt. nra.
Qed.

(** ** The lifecycle *)

Section LifecycleFacts.
Context {E : Type} {effect : Effect E}.
Implicit Types (p : Page) (c : Canvas E) (w : @World E).

Lemma animate_live_hidden p c :
  isVisible c = false -> animate_live p c = (p, c).
Proof. intros H. unfold animate_live. rewrite H. reflexivity. Qed.

Lemma animate_live_shown p c :
  isVisible c = true ->
  isVisible (snd (animate_live p c)) = true /\
  has_handle (snd (animate_live p c)) = true.
Proof.
  intros H. unfold animate_live. rewrite H. simpl.
  destruct draw as [d|].
  - destruct (d (width c) (height c) (fields c) _) as [e p2]. simpl. auto.
  - simpl. auto.
Qed.

Lemma on_entry_agrees b p c :
  isVisible (snd (on_entry b (p, c))) = b /\
  has_handle (snd (on_entry b (p, c))) = b.
Proof.
  destruct b; simpl.
  - unfold start_live. simpl.
    destruct (animationId c) eqn:Ha.
    + simpl. unfold has_handle. simpl. rewrite Ha. auto.
    + apply animate_live_shown. reflexivity.
  - unfold stop_live, has_handle. simpl.
    destruct (animationId c) eqn:Ha; simpl; rewrite ?Ha; auto.
Qed.

Lemma on_intersection_establishes (P : Canvas E -> Prop) :
  (forall b p c, P (snd (on_entry b (p, c)))) ->
  forall entries p c, P c -> P (snd (on_intersection entries p c)).
Proof.
  intros step. unfold on_intersection.
  induction entries as [|b entries IH]; intros p c H; cbn [fold_left]; [exact H|].
  specialize (step b p c).
  destruct (on_entry b (p, c)) as [p' c']. apply IH. exact step.
Qed.

Lemma on_entry_live_agrees b p0 c0 p :
  agrees (p, Live (snd (on_entry b (p0, c0)))).
Proof.
  unfold agrees.
  change (has_handle (snd (on_entry b (p0, c0))) =
          isVisible (snd (on_entry b (p0, c0)))).
  destruct (on_entry_agrees b p0 c0) as [-> ->]. reflexivity.
Qed.

Lemma agrees_sound w : agrees w -> sound w.
Proof. unfold agrees, sound. congruence. Qed.

Lemma resize_live_keeps p c :
  animationId (snd (resize_live p c)) = animationId c /\
  isVisible (snd (resize_live p c)) = isVisible c.
Proof. unfold resize_live. destruct onResize; simpl; auto. Qed.

Lemma animate_agrees w : sound w -> agrees (animate w).
Proof.
  destruct w as [p [|c]]; unfold agrees, sound, animate, running, visible; simpl.
  - reflexivity.
  - intros H. destruct (isVisible c) eqn:Hv.
    + destruct (animate_live_shown p c Hv) as [H1 H2].
      unfold has_handle in H2. rewrite H1.
      destruct (animationId (snd (animate_live p c))); congruence.
    + rewrite (animate_live_hidden p c Hv). simpl. rewrite Hv.
      destruct (animationId c); [discriminate (H eq_refl) | reflexivity].
Qed.

Lemma start_agrees w : sound w -> agrees (start w).
Proof.
  intros H. destruct w as [p [|c]]; unfold start; simpl.
  - apply (animate_agrees H).
  - unfold start_live. destruct (animationId c) eqn:Ha.
    + unfold agrees, sound in *. unfold running, visible in *. simpl in *. rewrite Ha in *.
      symmetry. apply H. reflexivity.
    + apply (animate_agrees (w := (p, Live c)) H).
Qed.

Lemma stop_sound w : sound (stop w).
Proof.
  destruct w as [p [|c]]; unfold sound, stop, running; simpl; try discriminate.
  unfold stop_live. destruct (animationId c) eqn:Ha; simpl; rewrite ?Ha; discriminate.
Qed.

Lemma session_only w w' :
  snd w' = snd w -> (agrees w -> agrees w') /\ (sound w -> sound w').
Proof. unfold agrees, sound, running, visible. intros ->. auto. Qed.

Lemma resize_keeps_session p c p0 :
  running (lift (resize_live p c)) = running (p0, Live c) /\
  visible (lift (resize_live p c)) = visible (p0, Live c).
Proof.
  unfold running, visible. simpl.
  destruct (resize_live_keeps p c) as [-> ->]. auto.
Qed.

Lemma perform_sound a w : sound w -> sound (perform a w).
Proof.
  intros H. destruct a; cbn [perform].
  - destruct w as [p [|c]]; simpl; [exact H|].
    apply (on_intersection_establishes
             (fun c => sound (p, Live c))).
    + intros b p0 c0. apply agrees_sound, on_entry_live_agrees.
    + exact H.
  - destruct w as [p [|c]]; simpl.
    + unfold sound, running. simpl. discriminate.
    + destruct (resize_keeps_session (set_viewport w0 h p) c p) as [Hr Hv].
      unfold sound in *. rewrite Hr, Hv. exact H.
  - apply (session_only w (on_mousemove clientX clientY (fst w), snd w) eq_refl), H.
  - apply (session_only w (set_rectTop top (fst w), snd w) eq_refl), H.
  - apply (session_only w (take h (fst w), snd w) eq_refl), H.
  - destruct (existsb _ _); [|exact H].
    apply agrees_sound, animate_agrees.
    apply (session_only w (land h (fst w), snd w) eq_refl), H.
  - apply agrees_sound, start_agrees, H.
  - apply stop_sound.
  - apply agrees_sound, animate_agrees, H.
  - unfold resize. destruct w as [p [|c]]; simpl; [exact H|].
    destruct (resize_keeps_session p c p) as [Hr Hv].
    unfold sound in *. rewrite Hr, Hv. exact H.
Qed.

Lemma perform_agrees a w :
  direct_stop a = false -> agrees w -> agrees (perform a w).
Proof.
  intros Ha H. destruct a; cbn [perform]; try discriminate Ha.
  - destruct w as [p [|c]]; simpl; [exact H|].
    apply (on_intersection_establishes (fun c => agrees (p, Live c))).
    + intros b p0 c0. apply on_entry_live_agrees.
    + exact H.
  - destruct w as [p [|c]]; simpl.
    + reflexivity.
    + destruct (resize_keeps_session (set_viewport w0 h p) c p) as [Hr Hv].
      unfold agrees in *. rewrite Hr, Hv. exact H.
  - apply (session_only w (on_mousemove clientX clientY (fst w), snd w) eq_refl), H.
  - apply (session_only w (set_rectTop top (fst w), snd w) eq_refl), H.
  - apply (session_only w (take h (fst w), snd w) eq_refl), H.
  - destruct (existsb _ _); [|exact H].
    apply animate_agrees, agrees_sound.
    apply (session_only w (land h (fst w), snd w) eq_refl), H.
  - apply start_agrees, agrees_sound, H.
  - apply animate_agrees, agrees_sound, H.
  - unfold resize. destruct w as [p [|c]]; simpl; [exact H|].
    destruct (resize_keeps_session p c p) as [Hr Hv].
    unfold agrees in *. rewrite Hr, Hv. exact H.
Qed.

Lemma constructor_agrees id p : agrees (constructor id p).
Proof.
  unfold constructor. destruct (negb _); [reflexivity|].
  destruct (init _ _ _) as [e p2]. reflexivity.
Qed.

Lemma run_sound actions : forall w, sound w -> sound (run actions w).
Proof.
  unfold run. induction actions as [|a actions IH]; intros w H; cbn [fold_left];
    [exact H | apply IH, perform_sound, H].
Qed.

Lemma run_agrees actions :
  forall w, existsb direct_stop actions = false -> agrees w ->
            agrees (run actions w).
Proof.
  unfold run. induction actions as [|a actions IH]; intros w Hs H; cbn [fold_left];
    [exact H|].
  cbn [existsb] in Hs. apply orb_false_iff in Hs as [Ha Hs].
  apply IH; [exact Hs | apply perform_agrees; assumption].
Qed.

(** *** The guards of [start], [stop] and [animate] *)

Lemma animate_hidden w : visible w = false -> animate w = w.
Proof.
  destruct w as [p [|c]]; unfold visible, animate; simpl; [reflexivity|].
  intros H. rewrite (animate_live_hidden p c H). reflexivity.
Qed.

Lemma start_running w : running w = true -> start w = w.
Proof.
  destruct w as [p [|c]]; unfold running, start, start_live; simpl;
    [discriminate|].
  destruct (animationId c); [reflexivity | discriminate].
Qed.

Lemma start_idle w : running w = false -> start w = animate w.
Proof.
  destruct w as [p [|c]]; unfold running, start, animate, start_live; simpl;
    [reflexivity|].
  destruct (animationId c); [discriminate | reflexivity].
Qed.

Lemma stop_idle w : running w = false -> stop w = w.
Proof.
  destruct w as [p [|c]]; unfold running, stop, stop_live; simpl;
    [reflexivity|].
  destruct (animationId c); [discriminate | reflexivity].
Qed.

Lemma stop_stops w : running (stop w) = false.
Proof.
  destruct w as [p [|c]]; unfold running, stop, stop_live; simpl;
    [reflexivity|].
  destruct (animationId c) eqn:Ha; simpl; rewrite ?Ha; reflexivity.
Qed.

Lemma animate_shown_runs w : visible w = true -> running (animate w) = true.
Proof.
  destruct w as [p [|c]]; unfold visible, animate; simpl; [discriminate|].
  intros H. destruct (animate_live_shown p c H) as [_ Hh]. exact Hh.
Qed.

Lemma start_idempotent w : start (start w) = start w.
Proof.
  destruct (running w) eqn:Hr.
  - rewrite (start_running w Hr). apply start_running, Hr.
  - rewrite (start_idle w Hr). destruct (visible w) eqn:Hv.
    + apply start_running, animate_shown_runs, Hv.
    + rewrite (animate_hidden w Hv). rewrite (start_idle w Hr).
      apply animate_hidden, Hv.
Qed.

(** C3: on a session that is not running (animationId null) stop is a
    no-op: the page, hence the calls made (no cancellation) and the
    scheduler, and the session are left as they were, animationId stays
    null, and stopping twice is stopping once. *)
Theorem stop_when_idle_is_noop w :
  running w = false ->
  stop w = w /\
  calls (fst (stop w)) = calls (fst w) /\
  running (stop w) = false /\
  stop (stop w) = stop w.
Proof.
  intros Hr. rewrite !(stop_idle w Hr). repeat split; auto.
Qed.

(** C9: on a session that is neither visible nor running, start draws
    nothing and changes nothing: it calls animate, whose first line
    returns; animationId stays null. *)
Theorem start_when_hidden_is_noop w :
  visible w = false -> running w = false ->
  start w = w /\ animate w = w /\ running (start w) = false /\
  calls (fst (start w)) = calls (fst w).
Proof.
  intros Hv Hr. rewrite (start_idle w Hr), !(animate_hidden w Hv).
  repeat split; auto.
Qed.

(** *** The invariant of the render loop handle *)

(** C1 (amended): from the constructor on, after any sequence of observer
    callbacks, window events, frame steps and calls of start, stop,
    animate and resize, a non-null animationId implies that isVisible is
    true; and when stop is never called directly (it runs only inside
    the observer's callback), animationId is non-null if and only if
    isVisible is true. *)
Theorem handle_iff_visible_unless_stopped_directly id p actions :
  let w := run actions (constructor id p) in
  (running w = true -> visible w = true) /\
  (existsb direct_stop actions = false -> running w = visible w).
Proof.
  intros w. split.
  - apply run_sound, agrees_sound, constructor_agrees.
  - intros H. apply run_agrees; [exact H | apply constructor_agrees].
Qed.

(** *** Frames of a hidden session *)




(** For comparison: a callback that is still queued when the observer
    reports the session hidden is withdrawn by stop, and no frame step
    is left to run at all. *)
Remark leaving_withdraws_the_queued_frame w :
  single_loop w ->
  frame_pending (fst (perform (Intersection [false]) w)) = false /\
  running (perform (Intersection [false]) w) = false /\
  visible (perform (Intersection [false]) w) = false.
Proof.
  destruct w as [p [|c]]; unfold single_loop; cbn [fst snd perform];
    intros [Hi Hq].
  - unfold frame_pending. rewrite Hi, Hq. auto.
  - cbn [on_intersection fold_left on_entry lift fst snd].
    unfold stop_live. cbn [animationId set_isVisible].
    destruct (animationId c) as [h|] eqn:Ha; unfold frame_pending, running, visible;
      simpl; rewrite ?Ha, ?Hi, ?Hq; simpl; rewrite ?Pos.eqb_refl; auto.
Qed.

(** *** Sessions without their element *)

Lemma perform_inert a w :
  snd w = Inert ->
  snd (perform a w) = Inert /\
  calls (fst (perform a w)) = calls (fst w) /\
  rolls (fst (perform a w)) = rolls (fst w) /\
  nextHandle (frames (fst (perform a w))) = nextHandle (frames (fst w)).
Proof.
  destruct w as [p s]. simpl. intros ->.
  destruct a; cbn [perform fst snd]; auto.
  - unfold take. destruct (existsb _ _); simpl; auto.
  - destruct (existsb _ _); simpl; auto.
Qed.

(** C5: when the document has no element with the given id, the
    constructor returns normally with an inert session and has touched
    nothing: no getContext call, no call of init (no Math.random
    consumed), no observe and no addEventListener call.  Whatever
    happens afterwards, the session stays inert, no call is ever made
    on its behalf and no animation frame is ever requested. *)
Theorem absent_element_gives_inert_session id p :
  getElementById p id = false ->
  constructor id p = (p, Inert) /\
  forall actions,
    let w := run actions (constructor id p) in
    snd w = Inert /\ running w = false /\
    calls (fst w) = calls p /\ rolls (fst w) = rolls p /\
    nextHandle (frames (fst w)) = nextHandle (frames p).
Proof.
  intros Habsent.
  assert (Hc : constructor id p = (p, Inert)).
  { unfold constructor. rewrite Habsent. reflexivity. }
  split; [exact Hc|]. rewrite Hc. clear Hc.
  assert (Hrun : forall actions (w0 : @World E),
             snd w0 = Inert ->
             snd (run actions w0) = Inert /\
             calls (fst (run actions w0)) = calls (fst w0) /\
             rolls (fst (run actions w0)) = rolls (fst w0) /\
             nextHandle (frames (fst (run actions w0))) =
             nextHandle (frames (fst w0))).
  { unfold run. induction actions as [|a actions IH]; intros w0 H0;
      cbn [fold_left]; [auto|].
    destruct (perform_inert a w0 H0) as (Hs & Hcalls & Hrolls & Hnext).
    destruct (IH (perform a w0) Hs) as (Hs' & Hcalls' & Hrolls' & Hnext').
    repeat split; congruence. }
  intros actions w. destruct (Hrun actions (p, Inert) eq_refl) as (Hs & Hc & Hr & Hn).
  subst w. repeat split; try assumption.
  unfold running. rewrite Hs. reflexivity.
Qed.

End LifecycleFacts.
(** *** One render loop per session *)

Section SingleLoop.
Context {E : Type} {effect : Effect E}.
Hypothesis effect_quiet : quiet effect.

Lemma animate_live_frames p c :
  isVisible c = true ->
  exists h,
    animationId (snd (animate_live p c)) = Some h /\
    isVisible (snd (animate_live p c)) = true /\
    queued (frames (fst (animate_live p c))) = queued (frames p) ++ [h] /\
    inflight (frames (fst (animate_live p c))) = inflight (frames p).
Proof.
  intros Hv. unfold animate_live. rewrite Hv. cbn [negb].
  destruct effect_quiet as [_ Hdraw].
  destruct draw as [d|].
  - specialize (Hdraw d eq_refl (width c) (height c) (fields c)
                  (emit [clearRect 0 0 (num (width c)) (num (height c))] p)).
    destruct (d _ _ _ _) as [e p2]. simpl in *. rewrite Hdraw.
    eexists. repeat split; exact Hv.
  - simpl. eexists. repeat split; exact Hv.
Qed.

Lemma on_entry_steady b p c :
  steady (p, Live c) -> steady (lift (on_entry b (p, c))).
Proof.
  intros [Ha [Hi Hq]]. split; [apply on_entry_live_agrees|].
  unfold single_loop in *. cbn [fst snd lift] in *.
  destruct b; cbn [on_entry].
  - unfold start_live. cbn [animationId set_isVisible].
    destruct (animationId c) as [h|] eqn:Hid.
    + cbn [fst snd animationId set_isVisible]. rewrite Hid. auto.
    + destruct (animate_live_frames p (set_isVisible true c) eq_refl)
        as (h & H1 & _ & H3 & H4).
      rewrite H1, H3, H4, Hq, Hi. auto.
  - unfold stop_live. cbn [animationId set_isVisible].
    destruct (animationId c) as [h|] eqn:Hid.
    + cbn [fst snd animationId set_animationId cancelAnimationFrame emit
             with_frames frames queued inflight].
      rewrite Hq, Hi. simpl. rewrite Pos.eqb_refl. auto.
    + cbn [fst snd animationId set_isVisible]. rewrite Hid. auto.
Qed.

Lemma on_intersection_steady entries : forall p c,
  steady (p, Live c) -> steady (lift (on_intersection entries p c)).
Proof.
  unfold on_intersection.
  induction entries as [|b entries IH]; intros p c H; cbn [fold_left]; [exact H|].
  pose proof (on_entry_steady b H) as Hb.
  destruct (on_entry b (p, c)) as [p' c']. apply IH. exact Hb.
Qed.

Lemma tick_steady h (w : @World E) :
  steady w -> steady (perform (Frame h) (perform (Taken h) w)).
Proof.
  intros [Ha [Hi Hq]]. destruct w as [p s]. unfold single_loop in *.
  cbn [fst snd] in *. cbn [perform fst snd]. unfold take.
  destruct (existsb (Pos.eqb h) (queued (frames p))) eqn:Hin.
  - destruct s as [|c]; [rewrite Hq in Hin; discriminate|].
    destruct (animationId c) as [k|] eqn:Hid; [|rewrite Hq in Hin; discriminate].
    rewrite Hq in Hin. simpl in Hin. rewrite orb_false_r in Hin.
    apply Pos.eqb_eq in Hin. subst k.
    cbn [with_frames frames inflight]. rewrite Hi. simpl.
    rewrite Pos.eqb_refl. cbn [orb].
    assert (Hv : isVisible c = true).
    { unfold agrees, running, visible in Ha. simpl in Ha. rewrite Hid in Ha.
      symmetry. exact Ha. }
    unfold animate. cbn [fst snd].
    set (p' := land h _).
    assert (Hq' : queued (frames p') = []).
    { subst p'. simpl. rewrite ?Hq, ?Hi. simpl. rewrite ?Pos.eqb_refl. reflexivity. }
    assert (Hi' : inflight (frames p') = []).
    { subst p'. simpl. rewrite ?Hq, ?Hi. simpl. rewrite ?Pos.eqb_refl. reflexivity. }
    clearbody p'.
    destruct (animate_live_frames p' c Hv) as (h2 & H1 & H2 & H3 & H4).
    split.
    + unfold agrees, running, visible, lift. cbn [fst snd]. rewrite H1, H2.
      reflexivity.
    + unfold single_loop, lift. cbn [fst snd]. rewrite H1, H3, H4, Hq', Hi'.
      auto.
  - rewrite Hi. simpl. split; [exact Ha | split; assumption].
Qed.

Lemma event_steady a (w : @World E) :
  browser_event a = true -> steady w -> steady (perform a w).
Proof.
  intros Hb Hs. destruct w as [p s].
  destruct a; try discriminate Hb; cbn [perform fst snd].
  - destruct s as [|c]; [exact Hs | apply on_intersection_steady, Hs].
  - destruct Hs as [Ha [Hi Hq]]. destruct s as [|c].
    + split; [reflexivity | split; assumption].
    + split.
      * destruct (resize_keeps_session (set_viewport w h p) c p) as [Hr Hv].
        unfold agrees in *. rewrite Hr, Hv. exact Ha.
      * unfold single_loop, resize_live in *. cbn [fst snd] in *.
        destruct onResize; cbn [fst snd lift animationId set_fields set_size];
          simpl; auto.
  - exact Hs.
  - exact Hs.
Qed.

Lemma driven_steady actions : forall w : @World E,
  driven actions = true -> steady w -> steady (run actions w).
Proof.
  unfold run. remember (length actions) as n eqn:Hn. revert actions Hn.
  induction n as [n IH] using lt_wf_ind. intros actions Hn w Hd Hs. subst n.
  destruct actions as [|a rest]; [exact Hs|].
  cbn [fold_left].
  assert (Hevent : browser_event a = true -> driven rest = true ->
                   steady (fold_left (fun w a => perform a w) rest (perform a w))).
  { intros Hb Hr.
    apply (IH (length rest)); [simpl; lia | reflexivity | exact Hr |].
    apply event_steady; assumption. }
  destruct a; try (simpl in Hd; discriminate Hd);
    try (apply Hevent; [reflexivity | exact Hd]).
  destruct rest as [|b rest']; [discriminate Hd|].
  destruct b; try discriminate Hd.
  cbn [driven] in Hd. apply andb_true_iff in Hd as [Hb Hr].
  apply Pos.eqb_eq in Hb. subst h0.
  cbn [fold_left].
  apply (IH (length rest')); [simpl; lia | reflexivity | exact Hr |].
  apply tick_steady, Hs.
Qed.

Lemma constructor_steady id ids vw vh top rnd first :
  steady (constructor id (page_load ids vw vh top rnd first)).
Proof.
  split; [apply constructor_agrees|].
  unfold constructor. destruct (negb _); [split; reflexivity|].
  destruct effect_quiet as [Hinit _].
  specialize (Hinit (innerWidth (emit [getContext] (page_load ids vw vh top rnd first)))
                (innerHeight (emit [getContext] (page_load ids vw vh top rnd first)))
                (emit [getContext] (page_load ids vw vh top rnd first))).
  destruct (init _ _ _) as [e p2]. unfold single_loop. simpl in *.
  rewrite Hinit. auto.
Qed.

End SingleLoop.

Lemma forEach_page (A : Type) (I : Page -> Prop) (f : A -> Page -> A * Page) :
  (forall a p, I p -> I (snd (f a p))) ->
  forall items p, I p -> I (snd (forEach f items p)).
Proof.
  intros Hf items p Hp.
  destruct (@forEach_Forall A (fun _ => True) (fun _ => True) I f) with
    (items := items) (p := p) as [_ H]; auto.
  apply Forall_forall. auto.
Qed.

Lemma push_n_page (A : Type) (I : Page -> Prop) (n : N) (make : Page -> A * Page) :
  (forall p, I p -> I (snd (make p))) ->
  forall start, I (snd start) -> I (snd (push_n n make start)).
Proof.
  intros Hm start Hs.
  apply (@push_n_invariant A (fun lp => I (snd lp))); [|exact Hs].
  intros l p H. simpl in *. apply Hm, H.
Qed.

Lemma hero_quiet : quiet HeroCanvas.effect.
Proof.
  split.
  - intros w h p. cbn [init HeroCanvas.effect]. unfold HeroCanvas.init.
    pose proof (@push_n_page HeroCanvas.Particle (fun q => frames q = frames p) 80
                  (HeroCanvas.createParticle w h)) as H.
    specialize (H (fun q Hq => Hq) ([], p) eq_refl).
    destruct (push_n _ _ _) as [ps p']. exact H.
  - intros d Hd w h e p. simpl in Hd. injection Hd as <-.
    unfold HeroCanvas.draw. destruct (HeroCanvas.each _ _ _) as [ps cs]. reflexivity.
Qed.

Lemma about_quiet : quiet AboutCanvas.effect.
Proof.
  split.
  - intros w h p. reflexivity.
  - intros d Hd w h e p. simpl in Hd. injection Hd as <-.
    unfold AboutCanvas.draw.
    pose proof (@forEach_page AboutCanvas.Dot (fun q => frames q = frames p)
                  AboutCanvas.draw_dot (fun a q Hq => Hq) (AboutCanvas.dots e)
                  (emit [set_fillStyle neonPurple] p) eq_refl) as H.
    destruct (forEach _ _ _) as [ds p2]. exact H.
Qed.

Lemma skills_quiet : quiet SkillsCanvas.effect.
Proof.
  split.
  - intros w h p. cbn [init SkillsCanvas.effect]. unfold SkillsCanvas.init.
    pose proof (@push_n_page SkillsCanvas.Shape (fun q => frames q = frames p) 15
                  (SkillsCanvas.createShape w h)) as H.
    specialize (H (fun q Hq => Hq) ([], p) eq_refl).
    destruct (push_n _ _ _) as [ps p']. exact H.
  - intros d Hd w h e p. simpl in Hd. injection Hd as <-.
    unfold SkillsCanvas.draw.
    pose proof (@forEach_page SkillsCanvas.Shape (fun q => frames q = frames p)
                  (SkillsCanvas.draw_shape h) (fun a q Hq => Hq) (SkillsCanvas.shapes e)
                  (emit [set_strokeStyle neonPurple; set_lineWidth 1.5] p) eq_refl) as H.
    destruct (forEach _ _ _) as [ds p2]. exact H.
Qed.

Lemma projects_quiet : quiet ProjectsCanvas.effect.
Proof.
  split.
  - intros w h p. reflexivity.
  - intros d Hd w h e p. simpl in Hd. injection Hd as <-.
    unfold ProjectsCanvas.draw. cbn [snd].
    apply (@for_lt_invariant Page (fun q => frames q = frames p)); [|reflexivity].
    intros i q Hq. exact Hq.
Qed.

Lemma contact_quiet : quiet ContactCanvas.effect.
Proof.
  split.
  - intros w h p. cbn [init ContactCanvas.effect]. unfold ContactCanvas.init.
    pose proof (@push_n_page ContactCanvas.Particle (fun q => frames q = frames p) 50
                  (ContactCanvas.createParticle w h)) as H.
    specialize (H (fun q Hq => Hq) ([], p) eq_refl).
    destruct (push_n _ _ _) as [ps p']. exact H.
  - intros d Hd w h e p. simpl in Hd. injection Hd as <-.
    unfold ContactCanvas.draw.
    pose proof (@forEach_page ContactCanvas.Particle (fun q => frames q = frames p)
                  (ContactCanvas.draw_particle w h
                     (rectTop (emit [set_fillStyle neonPurple] p)))
                  (fun a q Hq => Hq) (ContactCanvas.particles e)
                  (emit [set_fillStyle neonPurple] p) eq_refl) as H.
    destruct (forEach _ _ _) as [ds p2]. exact H.
Qed.


(** ** The effects while the mouse rests at its default *)

Section PointerAtRest.
Context {E : Type} {effect : Effect E}.
Variable P : E -> Prop.
Hypothesis init_ok : forall w h p,
  P (fst (init w h p)) /\ mouse (snd (init w h p)) = mouse p.
Hypothesis draw_ok : forall d, draw = Some d -> forall w h e p,
  mouse p = Mouse.offscreen -> P e ->
  P (fst (d w h e p)) /\ mouse (snd (d w h e p)) = Mouse.offscreen.
Hypothesis onResize_ok : forall f, onResize = Some f -> forall w h e,
  P e -> P (f w h e).

Local Abbreviation resting := (at_rest P).

Lemma animate_live_resting p c :
  resting (p, Live c) -> resting (lift (animate_live p c)).
Proof.
  intros [Hm Hp]. simpl in Hm, Hp. unfold animate_live.
  destruct (isVisible c); simpl; [|split; assumption].
  pose proof draw_ok as Hdraw. destruct draw as [d|].
  - destruct (@Hdraw d eq_refl (width c) (height c) (fields c)
                (emit [clearRect 0 0 (num (width c)) (num (height c))] p)
                Hm Hp) as [H1 H2].
    destruct (d _ _ _ _) as [e p2]. simpl in *. split; assumption.
  - simpl. split; assumption.
Qed.

Lemma start_live_resting p c :
  resting (p, Live c) -> resting (lift (start_live p c)).
Proof.
  intros H. unfold start_live. destruct (animationId c).
  - exact H.
  - apply animate_live_resting, H.
Qed.

Lemma stop_live_resting p c :
  resting (p, Live c) -> resting (lift (stop_live p c)).
Proof.
  intros H. unfold stop_live. destruct (animationId c); exact H.
Qed.

Lemma resize_live_resting p c :
  resting (p, Live c) -> resting (lift (resize_live p c)).
Proof.
  intros [Hm Hp]. simpl in Hm, Hp. unfold resize_live.
  pose proof onResize_ok as Hresize.
  destruct onResize as [f|]; split; simpl; auto.
Qed.

Lemma on_intersection_resting entries : forall p c,
  resting (p, Live c) -> resting (lift (on_intersection entries p c)).
Proof.
  unfold on_intersection.
  induction entries as [|b entries IH]; intros p c H; cbn [fold_left]; [exact H|].
  assert (Hb : resting (lift (on_entry b (p, c)))).
  { destruct b; cbn [on_entry].
    - apply start_live_resting. exact H.
    - apply stop_live_resting. exact H. }
  destruct (on_entry b (p, c)) as [p' c']. apply IH. exact Hb.
Qed.

Lemma resting_page p p' s :
  mouse p' = mouse p -> resting (p, s) -> resting (p', s).
Proof. intros Hm [H1 H2]. split; simpl in *; congruence. Qed.

Lemma mouse_take h p : mouse (take h p) = mouse p.
Proof. unfold take. destruct (existsb _ _); reflexivity. Qed.

Lemma perform_resting a w :
  mouse_still a = true -> resting w -> resting (perform a w).
Proof.
  intros Ha H. destruct w as [p s].
  destruct a; cbn [perform fst snd]; try discriminate Ha.
  - destruct s as [|c]; [exact H | apply on_intersection_resting, H].
  - destruct s as [|c].
    + split; [apply H | exact I].
    + apply resize_live_resting. exact H.
  - exact H.
  - apply resting_page with (p := p); [apply mouse_take | exact H].
  - destruct (existsb _ _); [|exact H].
    assert (H' : resting (land h p, s)) by exact H.
    unfold animate. cbn [fst snd]. destruct s as [|c]; [exact H'|].
    apply animate_live_resting. exact H'.
  - unfold start. cbn [fst snd]. destruct s as [|c]; [exact H|].
    apply start_live_resting, H.
  - unfold stop. cbn [fst snd]. destruct s as [|c]; [exact H|].
    apply stop_live_resting, H.
  - unfold animate. cbn [fst snd]. destruct s as [|c]; [exact H|].
    apply animate_live_resting, H.
  - unfold resize. cbn [fst snd]. destruct s as [|c]; [exact H|].
    apply resize_live_resting, H.
Qed.

Lemma constructor_resting id p :
  mouse p = Mouse.offscreen -> resting (constructor id p).
Proof.
  intros Hm. unfold constructor. destruct (negb _); [split; [exact Hm|exact I]|].
  destruct (init_ok (innerWidth (emit [getContext] p))
              (innerHeight (emit [getContext] p)) (emit [getContext] p)) as [H1 H2].
  destruct (init _ _ _) as [e p2]. simpl in *. split; simpl; congruence.
Qed.

Lemma run_resting actions : forall w,
  forallb mouse_still actions = true -> resting w -> resting (run actions w).
Proof.
  unfold run. induction actions as [|a actions IH]; intros w Hs H; cbn [fold_left];
    [exact H|].
  cbn [forallb] in Hs. apply andb_true_iff in Hs as [Ha Hs].
  apply IH; [exact Hs | apply perform_resting; assumption].
Qed.
End PointerAtRest.

Module AboutFacts.
Import AboutCanvas.

Lemma dot_far top d : 0 <= x d -> 1000 <= dist Mouse.offscreen top d.
Proof. intros H. unfold dist, dx. simpl. apply far_away, H. Qed.

Lemma no_force top d : 0 <= x d -> force Mouse.offscreen top d = 0.
Proof.
  intros H. pose proof (dot_far top d H) as Hf. unfold force.
  rewrite Rmax_left by lra. lra.
Qed.

Lemma dot_at_rest_unaffected d : dot_onscreen d -> dot_unaffected Mouse.offscreen d.
Proof.
  intros [Hx _] top. pose proof (dot_far top d Hx). split; [lra|].
  split; [apply no_force, Hx|].
  unfold move_dot. rewrite (no_force top d Hx). f_equal; lra.
Qed.

Lemma move_dot_onscreen top d :
  dot_onscreen d -> dot_onscreen (move_dot Mouse.offscreen top d).
Proof.
  intros [Hx Ho]. unfold dot_onscreen, move_dot. simpl.
  rewrite (no_force top d Hx). split; lra.
Qed.

Lemma createDots_onscreen w h f : Forall dot_onscreen (dots (createDots w h f)).
Proof.
  unfold createDots. simpl.
  apply for_lt_invariant; [|constructor].
  intros x0 acc Hacc. apply for_lt_invariant; [|exact Hacc].
  intros y0 acc' Hacc'. apply Forall_app. split; [exact Hacc'|].
  constructor; [|constructor].
  split; simpl; apply num_nonneg.
Qed.

Lemma createDots_length w h f :
  length (dots (createDots w h f)) =
  N.to_nat (ceil_div w (spacing f) * ceil_div h (spacing f)).
Proof.
  unfold createDots. simpl.
  rewrite (@for_lt_length Dot (N.to_nat (ceil_div h (spacing f)))).
  - rewrite N.sub_0_r, N2Nat.inj_mul. simpl. lia.
  - intros x0 acc. rewrite (@for_lt_length Dot 1).
    + rewrite N.sub_0_r. lia.
    + intros y0 acc'. rewrite length_app. reflexivity.
Qed.

Lemma draw_dots_onscreen w h f p :
  mouse p = Mouse.offscreen -> Forall dot_onscreen (dots f) ->
  Forall dot_onscreen (dots (fst (draw w h f p))) /\
  mouse (snd (draw w h f p)) = Mouse.offscreen.
Proof.
  intros Hm Hf. unfold draw.
  destruct (@forEach_Forall Dot dot_onscreen dot_onscreen
              (fun q => mouse q = Mouse.offscreen) draw_dot) with
    (items := dots f) (p := emit [set_fillStyle neonPurple] p) as [H1 H2];
    [ | exact Hf | exact Hm | ].
  - intros d q Hd Hq. unfold draw_dot. simpl. rewrite Hq.
    split; [apply move_dot_onscreen, Hd | reflexivity].
  - destruct (forEach draw_dot (dots f) _) as [ds p2]. simpl in *. auto.
Qed.
End AboutFacts.

Module SkillsFacts.
Import SkillsCanvas.

Lemma shape_far top s : 0 <= x s -> 1000 <= dist Mouse.offscreen top s.
Proof. intros H. unfold dist, dx. simpl. apply far_away, H. Qed.

Lemma not_avoided top s :
  0 <= x s -> lt_num (dist Mouse.offscreen top s) 200 = false.
Proof. intros H. apply lt_num_false. pose proof (shape_far top s H). lra. Qed.

Lemma shape_at_rest_unaffected s : shape_onscreen s -> shape_unaffected Mouse.offscreen s.
Proof.
  intros Hx top. assert (Hd : 0 <= x (drift s)) by exact Hx.
  pose proof (shape_far top (drift s) Hd). split; [lra|].
  split; [apply not_avoided, Hd|].
  assert (Hav : avoid Mouse.offscreen top (drift s) = drift s).
  { unfold avoid. rewrite (not_avoided top (drift s) Hd). reflexivity. }
  split; [exact Hav|].
  intros h p Hm Ht. unfold draw_shape. cbn [fst]. rewrite Hm, Ht, Hav.
  reflexivity.
Qed.

Lemma draw_shape_onscreen h s p :
  mouse p = Mouse.offscreen -> shape_onscreen s ->
  shape_onscreen (fst (draw_shape h s p)) /\
  mouse (snd (draw_shape h s p)) = Mouse.offscreen.
Proof.
  intros Hm Hs. unfold draw_shape. simpl. split; [|exact Hm].
  rewrite Hm. unfold avoid. rewrite not_avoided by exact Hs.
  unfold shape_onscreen, recycle. destruct (lt_num _ _); exact Hs.
Qed.

Lemma createShape_onscreen w h p : shape_onscreen (fst (createShape w h p)).
Proof. unfold createShape, shape_onscreen. simpl. apply unit01_scaled. Qed.

Lemma init_onscreen w h p :
  Forall shape_onscreen (shapes (fst (init w h p))) /\
  mouse (snd (init w h p)) = mouse p.
Proof.
  unfold init.
  assert (H : (fun lp => Forall shape_onscreen (fst lp) /\
                         mouse (snd lp) = mouse p)
                (push_n 15 (createShape w h) ([], p))).
  { apply push_n_invariant; [|split; [constructor|reflexivity]].
    intros l q [Hl Hq]. simpl. split; [|exact Hq].
    apply Forall_app. split; [exact Hl|]. constructor; [|constructor].
    apply createShape_onscreen. }
  destruct (push_n 15 (createShape w h) ([], p)) as [ss p']. exact H.
Qed.

Lemma draw_shapes_onscreen w h f p :
  mouse p = Mouse.offscreen -> Forall shape_onscreen (shapes f) ->
  Forall shape_onscreen (shapes (fst (draw w h f p))) /\
  mouse (snd (draw w h f p)) = Mouse.offscreen.
Proof.
  intros Hm Hf. unfold draw.
  destruct (@forEach_Forall Shape shape_onscreen shape_onscreen
              (fun q => mouse q = Mouse.offscreen) (draw_shape h)) with
    (items := shapes f)
    (p := emit [set_strokeStyle neonPurple; set_lineWidth 1.5] p) as [H1 H2];
    [ | exact Hf | exact Hm | ].
  - intros s q Hs Hq. apply draw_shape_onscreen; assumption.
  - destruct (forEach (draw_shape h) (shapes f) _) as [ds p2]. simpl in *. auto.
Qed.
End SkillsFacts.

Module ContactFacts.
Import ContactCanvas.

Lemma particle_far top q : 0 <= x q -> 1000 <= dist Mouse.offscreen top q.
Proof. intros H. unfold dist, dx. simpl. apply far_away, H. Qed.

Lemma particle_at_rest_unaffected q : particle_onscreen q -> particle_unaffected Mouse.offscreen q.
Proof.
  intros Hx top. pose proof (particle_far top q Hx). split; [lra|].
  assert (Hlt : lt_num (dist Mouse.offscreen top q) 300 = false)
    by (apply lt_num_false; lra).
  split; [exact Hlt|].
  assert (Hat : attract Mouse.offscreen top q = q).
  { unfold attract. rewrite Hlt. reflexivity. }
  split; [exact Hat|].
  intros w h p Hm. unfold draw_particle. rewrite Hm, Hat.
  destruct (random p) as [jitter p1]. reflexivity.
Qed.

Lemma wrap_in_bounds w h q : in_bounds w h (wrap w h q).
Proof.
  pose proof (num_nonneg w) as Hw. pose proof (num_nonneg h) as Hh.
  unfold in_bounds, wrap, lt_num. simpl.
  destruct (Rlt_dec (x q) 0), (Rlt_dec (y q) 0);
    repeat match goal with
           | |- context [Rlt_dec ?a ?b] => destruct (Rlt_dec a b)
           end; lra.
Qed.

Lemma in_bounds_onscreen w h q : in_bounds w h q -> particle_onscreen q.
Proof. intros [[H _] _]. exact H. Qed.

Lemma draw_particle_in_bounds w h top q p :
  in_bounds w h (fst (draw_particle w h top q p)) /\
  mouse (snd (draw_particle w h top q p)) = mouse p.
Proof. unfold draw_particle. simpl. split; [apply wrap_in_bounds | reflexivity]. Qed.

Lemma createParticle_in_bounds w h p : in_bounds w h (fst (createParticle w h p)).
Proof. unfold createParticle, in_bounds. simpl. split; apply unit01_scaled. Qed.

Lemma init_in_bounds w h p :
  Forall (in_bounds w h) (particles (fst (init w h p))) /\
  mouse (snd (init w h p)) = mouse p.
Proof.
  unfold init.
  assert (H : (fun lp => Forall (in_bounds w h) (fst lp) /\
                         mouse (snd lp) = mouse p)
                (push_n 50 (createParticle w h) ([], p))).
  { apply push_n_invariant; [|split; [constructor|reflexivity]].
    intros l q [Hl Hq]. simpl. split; [|exact Hq].
    apply Forall_app. split; [exact Hl|]. constructor; [|constructor].
    apply createParticle_in_bounds. }
  destruct (push_n 50 (createParticle w h) ([], p)) as [ss p']. exact H.
Qed.

Lemma draw_in_bounds w h f p :
  Forall (in_bounds w h) (particles (fst (draw w h f p))) /\
  mouse (snd (draw w h f p)) = mouse p.
Proof.
  unfold draw.
  destruct (@forEach_Forall Particle (fun _ => True) (in_bounds w h)
              (fun q => mouse q = mouse p)
              (draw_particle w h (rectTop (emit [set_fillStyle neonPurple] p))))
    with (items := particles f) (p := emit [set_fillStyle neonPurple] p)
    as [H1 H2]; [ | apply Forall_forall; auto | reflexivity | ].
  - intros q p0 _ Hp0.
    destruct (draw_particle_in_bounds w h
                (rectTop (emit [set_fillStyle neonPurple] p)) q p0) as [Ha Hb].
    split; [exact Ha | congruence].
  - destruct (forEach _ (particles f) _) as [ds p2]. simpl in *. auto.
Qed.
End ContactFacts.

(** ** Resize *)

(** C6: after a resize event a session that records a size (a live one;
    an inert session has no width or height field and no resize listener)
    records the viewport's: width = window.innerWidth and height =
    window.innerHeight.  An effect with a resize hook gets its fields from
    the hook run at the new size, the others keep their fields; the grid
    effect is the one effect with a hook, and its hook rebuilds the dots
    for the new size, ceil(width / spacing) * ceil(height / spacing) of
    them, where ceil(a / b) is the least n with a <= n * b. *)
Theorem resize_event_records_viewport :
  (forall (E : Type) (effect : Effect E) (w : @World E) (vw vh : N),
     let w' := perform (WindowResize vw vh) w in
     innerWidth (fst w') = vw /\ innerHeight (fst w') = vh /\
     recorded_size (snd w') =
       match snd w with Live _ => Some (vw, vh) | Inert => None end /\
     match snd w, snd w' with
     | Live c, Live c' =>
         fields c' = match onResize with
                     | Some hook => hook vw vh (fields c)
                     | None => fields c
                     end
     | Inert, Inert => True
     | _, _ => False
     end) /\
  (forall (p : Page) (c : Canvas AboutCanvas.Fields) (vw vh : N),
     match snd (perform (effect := AboutCanvas.effect)
                  (WindowResize vw vh) (p, Live c)) with
     | Live c' =>
         fields c' = AboutCanvas.createDots vw vh (fields c) /\
         AboutCanvas.spacing (fields c') = AboutCanvas.spacing (fields c) /\
         length (AboutCanvas.dots (fields c')) =
         N.to_nat (ceil_div vw (AboutCanvas.spacing (fields c))
                   * ceil_div vh (AboutCanvas.spacing (fields c)))
     | Inert => False
     end) /\
  (onResize (Effect := AboutCanvas.effect) = Some AboutCanvas.onResize /\
   onResize (Effect := HeroCanvas.effect) = None /\
   onResize (Effect := SkillsCanvas.effect) = None /\
   onResize (Effect := ProjectsCanvas.effect) = None /\
   onResize (Effect := ContactCanvas.effect) = None) /\
  (forall (a : N) (b : positive),
     (a <= ceil_div a b * Npos b)%N /\
     (forall n, a <= n * Npos b -> ceil_div a b <= n)%N).
Proof.
  split; [|split; [|split]].
  - intros E effect [p [|c]] vw vh; cbn [perform fst snd].
    + repeat split.
    + unfold resize_live. destruct onResize as [hook|]; simpl; repeat split.
  - intros p c vw vh. cbn [perform fst snd]. unfold resize_live. simpl.
    repeat split. apply AboutFacts.createDots_length.
  - repeat split.
  - exact ceil_div_spec.
Qed.

(** C7: with an 800 x 600 viewport the setup of the grid effect (spacing
    50) produces 192 dots, namely, in the order created, for each i below
    16 and, for each i, each j below 12, the dot whose origin and whose
    position are both (50 i, 50 j).  The session built on such a page
    holds these dots, with width 800, height 600 and spacing 50. *)
Theorem grid_of_800_by_600 (ids : list string) (top : R) (rnd : nat -> Unit01)
    (first : handle) :
  let p := page_load ("canvas-about"%string :: ids) 800 600 top rnd first in
  let expected :=
    flat_map
      (fun i : nat =>
         map (fun j : nat =>
                {| AboutCanvas.originX := 50 * INR i;
                   AboutCanvas.originY := 50 * INR j;
                   AboutCanvas.x := 50 * INR i;
                   AboutCanvas.y := 50 * INR j |})
           (seq 0 12))
      (seq 0 16) in
  AboutCanvas.dots (fst (AboutCanvas.init 800 600 p)) = expected /\
  length (AboutCanvas.dots (fst (AboutCanvas.init 800 600 p))) = 192%nat /\
  exists c, snd (new_AboutCanvas "canvas-about" p) = Live c /\
            width c = 800%N /\ height c = 600%N /\
            AboutCanvas.spacing (fields c) = 50%positive /\
            AboutCanvas.dots (fields c) = expected.
Proof.
  intros p expected.
  assert (Hexp : expected =
                 flat_map
                   (fun i : nat =>
                      map (fun j : nat =>
                             {| AboutCanvas.originX := IZR (50 * Z.of_nat i);
                                AboutCanvas.originY := IZR (50 * Z.of_nat j);
                                AboutCanvas.x := IZR (50 * Z.of_nat i);
                                AboutCanvas.y := IZR (50 * Z.of_nat j) |})
                        (seq 0 12))
                   (seq 0 16)).
  { unfold expected. apply flat_map_ext. intros i. apply map_ext. intros j.
    rewrite !mult_IZR, <- !INR_IZR_INZ. reflexivity. }
  clearbody expected.
  assert (H : AboutCanvas.dots
                (AboutCanvas.createDots 800 600
                   {| AboutCanvas.dots := []; AboutCanvas.spacing := 50 |})
              = expected).
  { rewrite Hexp. vm_compute. reflexivity. }
  split; [exact H|]. split; [vm_compute; reflexivity|].
  eexists. split; [reflexivity|]. repeat split; exact H.
Qed.

(** ** The mouse at its default *)

Lemma about_resting (id : string) (p : Page) (actions : list Action) :
  mouse p = Mouse.offscreen -> forallb mouse_still actions = true ->
  at_rest (fun f => Forall dot_onscreen (AboutCanvas.dots f))
    (run actions (new_AboutCanvas id p)).
Proof.
  intros Hm Ha. apply run_resting; try assumption.
  - intros d Hd w h e q Hq He. simpl in Hd. injection Hd as <-.
    apply AboutFacts.draw_dots_onscreen; assumption.
  - intros f Hf w h e _. simpl in Hf. injection Hf as <-.
    apply AboutFacts.createDots_onscreen.
  - apply constructor_resting; [|exact Hm].
    intros w h q. split; [apply AboutFacts.createDots_onscreen | reflexivity].
Qed.

Lemma skills_resting (id : string) (p : Page) (actions : list Action) :
  mouse p = Mouse.offscreen -> forallb mouse_still actions = true ->
  at_rest (fun f => Forall shape_onscreen (SkillsCanvas.shapes f))
    (run actions (new_SkillsCanvas id p)).
Proof.
  intros Hm Ha. apply run_resting; try assumption.
  - intros d Hd w h e q Hq He. simpl in Hd. injection Hd as <-.
    apply SkillsFacts.draw_shapes_onscreen; assumption.
  - intros f Hf. discriminate Hf.
  - apply constructor_resting; [|exact Hm].
    intros w h q. apply SkillsFacts.init_onscreen.
Qed.

Lemma contact_init_onscreen w h q :
  Forall particle_onscreen (ContactCanvas.particles (fst (ContactCanvas.init w h q))) /\
  mouse (snd (ContactCanvas.init w h q)) = mouse q.
Proof.
  destruct (ContactFacts.init_in_bounds w h q) as [H1 H2]. split; [|exact H2].
  eapply Forall_impl; [|exact H1]. intros a. apply ContactFacts.in_bounds_onscreen.
Qed.

Lemma contact_resting (id : string) (p : Page) (actions : list Action) :
  mouse p = Mouse.offscreen -> forallb mouse_still actions = true ->
  at_rest (fun f => Forall particle_onscreen (ContactCanvas.particles f))
    (run actions (new_ContactCanvas id p)).
Proof.
  intros Hm Ha. apply run_resting; try assumption.
  - intros d Hd w h e q Hq He. simpl in Hd. injection Hd as <-.
    destruct (ContactFacts.draw_in_bounds w h e q) as [H1 H2].
    split; [|congruence].
    eapply Forall_impl; [|exact H1]. intros a. apply ContactFacts.in_bounds_onscreen.
  - intros f Hf. discriminate Hf.
  - apply constructor_resting; [|exact Hm]. apply contact_init_onscreen.
Qed.

Lemma entities_at_rest (E A : Type) (get : E -> list A) (Q : A -> Prop)
    (U : Mouse.t -> A -> Prop) (w : @World E) :
  (forall a, Q a -> U Mouse.offscreen a) ->
  at_rest (fun f => Forall Q (get f)) w ->
  mouse (fst w) = Mouse.offscreen /\ Forall (U (mouse (fst w))) (entities get w).
Proof.
  intros HU [Hm Hp]. split; [exact Hm|]. rewrite Hm. unfold entities.
  destruct (snd w) as [|c]; [constructor|].
  eapply Forall_impl; [|exact Hp]. exact HU.
Qed.

(** C8: as long as the mouse has not moved from its default (-1000, -1000),
    in every state a session of the grid, of the floating shapes or of the
    gravity particles reaches from its construction, and for every scroll
    position, the distance a frame step computes from each entity to the
    mouse exceeds 300, hence each of the radii 150, 200 and 300, and the
    code applies no force: the force computed for a dot is zero and
    move_dot only relaxes the dot towards its origin; the test
    dist < 200 fails and avoid leaves the drifted shape as it is, so that
    the frame step of a shape is its drift and its recycling; the test
    dist < 300 fails and attract leaves the particle as it is, so that the
    frame step of a particle is its glide and its wrap-around.  The two
    other effects do not read the mouse: what their frame step makes of
    their fields is the same on every page. *)
Theorem offscreen_mouse_exerts_no_force (id : string) (ids : list string)
    (vw vh : N) (top : R) (rnd : nat -> Unit01) (first : handle)
    (actions : list Action) :
  forallb mouse_still actions = true ->
  let p := page_load ids vw vh top rnd first in
  let about := run actions (new_AboutCanvas id p) in
  let skills := run actions (new_SkillsCanvas id p) in
  let contact := run actions (new_ContactCanvas id p) in
  (mouse (fst about) = Mouse.offscreen /\
   Forall (dot_unaffected (mouse (fst about)))
     (entities AboutCanvas.dots about)) /\
  (mouse (fst skills) = Mouse.offscreen /\
   Forall (shape_unaffected (mouse (fst skills)))
     (entities SkillsCanvas.shapes skills)) /\
  (mouse (fst contact) = Mouse.offscreen /\
   Forall (particle_unaffected (mouse (fst contact)))
     (entities ContactCanvas.particles contact)) /\
  (forall w h f q q',
     fst (HeroCanvas.draw w h f q) = fst (HeroCanvas.draw w h f q')) /\
  (forall w h f q q',
     fst (ProjectsCanvas.draw w h f q) = fst (ProjectsCanvas.draw w h f q')).
Proof.
  intros Ha p about skills contact. split; [|split; [|split; [|split]]].
  - apply entities_at_rest with (Q := dot_onscreen);
      [exact AboutFacts.dot_at_rest_unaffected | apply about_resting; [reflexivity | exact Ha]].
  - apply entities_at_rest with (Q := shape_onscreen);
      [exact SkillsFacts.shape_at_rest_unaffected | apply skills_resting; [reflexivity | exact Ha]].
  - apply entities_at_rest with (Q := particle_onscreen);
      [exact ContactFacts.particle_at_rest_unaffected
      | apply contact_resting; [reflexivity | exact Ha]].
  - intros w h f q q'. unfold HeroCanvas.draw.
    destruct (HeroCanvas.each w h (HeroCanvas.particles f)). reflexivity.
  - intros w h f q q'. reflexivity.
Qed.

(** ** The gravity particles stay on the canvas *)

Lemma animate_in_bounds (w : @World ContactCanvas.Fields) :
  all_in_bounds w -> all_in_bounds (animate (effect := ContactCanvas.effect) w).
Proof.
  destruct w as [p [|c]]; unfold all_in_bounds, animate; cbn [fst snd];
    [auto|].
  intros H. unfold animate_live. destruct (isVisible c); [|exact H].
  cbn [negb draw ContactCanvas.effect].
  pose proof (ContactFacts.draw_in_bounds (width c) (height c) (fields c)
                (emit [clearRect 0 0 (num (width c)) (num (height c))] p)) as [Hd _].
  destruct (ContactCanvas.draw _ _ _ _) as [e p2]. simpl in *. exact Hd.
Qed.

(** C10: every gravity particle has 0 <= x <= width and 0 <= y <= height
    after the setup, and a frame step keeps it so (the draw routine even
    establishes it, whatever the particles were): the wrap-around, applied
    after attraction, motion, friction and jitter, sends a coordinate below
    0 to the far boundary and one beyond the far boundary to 0. *)
Theorem gravity_particles_stay_in_bounds :
  (forall id p, all_in_bounds (new_ContactCanvas id p)) /\
  (forall w h,
     all_in_bounds w ->
     all_in_bounds (animate (effect := ContactCanvas.effect) w) /\
     all_in_bounds (perform (effect := ContactCanvas.effect) (Frame h) w)) /\
  (forall width height f p,
     Forall (in_bounds width height)
       (ContactCanvas.particles (fst (ContactCanvas.draw width height f p)))) /\
  (forall width height q,
     let q' := ContactCanvas.wrap width height q in
     in_bounds width height q' /\
     (ContactCanvas.x q < 0 -> ContactCanvas.x q' = num width) /\
     (num width < ContactCanvas.x q -> ContactCanvas.x q' = 0) /\
     (ContactCanvas.y q < 0 -> ContactCanvas.y q' = num height) /\
     (num height < ContactCanvas.y q -> ContactCanvas.y q' = 0)).
Proof.
  split; [|split; [|split]].
  - intros id p. unfold new_ContactCanvas, constructor, all_in_bounds.
    destruct (negb _); [exact I|].
    cbn [init ContactCanvas.effect].
    pose proof (ContactFacts.init_in_bounds (innerWidth (emit [getContext] p))
                  (innerHeight (emit [getContext] p)) (emit [getContext] p)) as [H _].
    destruct (ContactCanvas.init _ _ _) as [e p2]. exact H.
  - intros w h H. split; [apply animate_in_bounds, H|].
    cbn [perform]. destruct (existsb _ _); [|exact H].
    apply animate_in_bounds. exact H.
  - intros width height f p. apply ContactFacts.draw_in_bounds.
  - intros width height q q'. split; [apply ContactFacts.wrap_in_bounds|].
    pose proof (num_nonneg width) as Hw. pose proof (num_nonneg height) as Hh.
    subst q'. unfold ContactCanvas.wrap, lt_num. simpl.
    destruct (Rlt_dec (ContactCanvas.x q) 0), (Rlt_dec (ContactCanvas.y q) 0);
      repeat split; intros Hlt;
      repeat match goal with
             | |- context [Rlt_dec ?a ?b] => destruct (Rlt_dec a b)
             end; lra.
Qed.

(** ** The properties at work on the demo page *)

(** C1, as stated, fails when stop is called directly: the hero session
    is made visible by the observer, which starts its loop, and then
    stopped by a direct call; it is left visible without a handle. *)
Lemma direct_stop_breaks_the_equivalence :
  getElementById demo_page "hero-canvas" = true /\
  visible (run [Intersection [true]; CallStop]
             (new_HeroCanvas "hero-canvas" demo_page)) = true /\
  running (run [Intersection [true]; CallStop]
             (new_HeroCanvas "hero-canvas" demo_page)) = false.
Proof. repeat split; reflexivity. Qed.


Lemma handle_iff_visible_witness :
  existsb direct_stop
    [Intersection [true]; Taken 1; Frame 1; Intersection [false; true]] = false /\
  running (run [Intersection [true]; Taken 1; Frame 1; Intersection [false; true]]
             (new_HeroCanvas "hero-canvas" demo_page)) =
  visible (run [Intersection [true]; Taken 1; Frame 1; Intersection [false; true]]
             (new_HeroCanvas "hero-canvas" demo_page)).
Proof.
  split; [reflexivity|].
  apply (proj2 (@handle_iff_visible_unless_stopped_directly _ HeroCanvas.effect
                  "hero-canvas" demo_page
                  [Intersection [true]; Taken 1; Frame 1;
                   Intersection [false; true]])).
  reflexivity.
Defined.


Lemma stop_when_idle_witness :
  running (new_HeroCanvas "hero-canvas" demo_page) = false /\
  stop (new_HeroCanvas "hero-canvas" demo_page)
  = new_HeroCanvas "hero-canvas" demo_page.
Proof.
  assert (Hr : running (new_HeroCanvas "hero-canvas" demo_page) = false)
    by reflexivity.
  destruct (stop_when_idle_is_noop (new_HeroCanvas "hero-canvas" demo_page) Hr)
    as (H1 & _).
  split; [exact Hr | exact H1].
Defined.

Lemma start_when_hidden_witness :
  visible (new_HeroCanvas "hero-canvas" demo_page) = false /\
  running (new_HeroCanvas "hero-canvas" demo_page) = false /\
  start (new_HeroCanvas "hero-canvas" demo_page)
  = new_HeroCanvas "hero-canvas" demo_page.
Proof.
  assert (Hv : visible (new_HeroCanvas "hero-canvas" demo_page) = false)
    by reflexivity.
  assert (Hr : running (new_HeroCanvas "hero-canvas" demo_page) = false)
    by reflexivity.
  destruct (start_when_hidden_is_noop (new_HeroCanvas "hero-canvas" demo_page)
              Hv Hr) as (H1 & _).
  split; [exact Hv|]. split; [exact Hr | exact H1].
Defined.


Lemma absent_element_witness :
  getElementById demo_page "canvas-blog" = false /\
  new_HeroCanvas "canvas-blog" demo_page = (demo_page, Inert) /\
  calls (fst (run [Intersection [true]; WindowResize 1024 768; CallStart]
                (new_HeroCanvas "canvas-blog" demo_page))) = [].
Proof.
  assert (Habsent : getElementById demo_page "canvas-blog" = false)
    by reflexivity.
  destruct (absent_element_gives_inert_session (effect := HeroCanvas.effect)
              "canvas-blog" demo_page Habsent) as [Hnew Hrun].
  split; [exact Habsent|]. split; [exact Hnew|].
  apply (Hrun [Intersection [true]; WindowResize 1024 768; CallStart]).
Defined.

Lemma offscreen_mouse_witness :
  forallb mouse_still
    [Intersection [true]; Taken 1; Frame 1; Scroll 250; WindowResize 1024 768]
  = true /\
  Forall (dot_unaffected Mouse.offscreen)
    (entities AboutCanvas.dots
       (run [Intersection [true]; Taken 1; Frame 1; Scroll 250;
             WindowResize 1024 768]
          (new_AboutCanvas "canvas-about" demo_page))).
Proof.
  split; [reflexivity|].
  destruct (offscreen_mouse_exerts_no_force "canvas-about"
              ["hero-canvas"; "canvas-about"; "canvas-skills"; "canvas-projects";
               "canvas-contact"]%string
              800 600 0 (fun _ => zero01) 1
              [Intersection [true]; Taken 1; Frame 1; Scroll 250;
               WindowResize 1024 768]
              eq_refl) as [[Hm Hdots] _].
  rewrite Hm in Hdots. exact Hdots.
Defined.

Lemma gravity_particles_witness :
  all_in_bounds
    (demo_page,
     Live {| width := 800; height := 600; animationId := None;
             isVisible := true;
             fields := {| ContactCanvas.particles :=
                            [{| ContactCanvas.x := 799.9; ContactCanvas.y := 300;
                                ContactCanvas.vx := 1; ContactCanvas.vy := 0;
                                ContactCanvas.friction := 0.95 |}] |} |}) /\
  all_in_bounds
    (animate
       (demo_page,
        Live {| width := 800; height := 600; animationId := None;
                isVisible := true;
                fields := {| ContactCanvas.particles :=
                               [{| ContactCanvas.x := 799.9; ContactCanvas.y := 300;
                                   ContactCanvas.vx := 1; ContactCanvas.vy := 0;
                                   ContactCanvas.friction := 0.95 |}] |} |})).
Proof.
  assert (H : all_in_bounds
    (demo_page,
     Live {| width := 800; height := 600; animationId := None;
             isVisible := true;
             fields := {| ContactCanvas.particles :=
                            [{| ContactCanvas.x := 799.9; ContactCanvas.y := 300;
                                ContactCanvas.vx := 1; ContactCanvas.vy := 0;
                                ContactCanvas.friction := 0.95 |}] |} |})).
  { unfold all_in_bounds, in_bounds, num. simpl.
    constructor; [simpl; lra | constructor]. }
  destruct gravity_particles_stay_in_bounds as (_ & Hstep & _).
  destruct (Hstep _ 1%positive H) as [Hanimate _].
  split; [exact H | exact Hanimate].
Defined.

(** * Further properties *)

(** ** The observer, the loop and the frames *)

Section MoreLifecycle.
Context {E : Type} {effect : Effect E}.
Implicit Types (p : Page) (c : Canvas E) (w : @World E).

Lemma on_intersection_last entries b p c :
  on_intersection (entries ++ [b]) p c =
  on_entry b (on_intersection entries p c).
Proof. unfold on_intersection. rewrite fold_left_app. reflexivity. Qed.

(** X1: the observer's callback goes through its entries in order and the
    last one decides: after a callback whose last entry is intersecting
    the session is visible and running, after one whose last entry is not
    it is hidden and idle, whatever it was before; a callback without
    entries changes nothing. *)
Theorem last_entry_decides :
  (forall p c entries b,
     visible (perform (Intersection (entries ++ [b])) (p, Live c)) = b /\
     running (perform (Intersection (entries ++ [b])) (p, Live c)) = b) /\
  (forall w, perform (Intersection []) w = w).
Proof.
  split.
  - intros p c entries b. cbn [perform fst snd].
    rewrite on_intersection_last.
    destruct (on_intersection entries p c) as [p' c'].
    destruct (on_entry_agrees b p' c') as [Hv Hh].
    split; [exact Hv | exact Hh].
  - intros [p [|c]]; reflexivity.
Qed.

Lemma perform_keeps_visible a w :
  observer_reports a = false -> visible (perform a w) = visible w.
Proof.
  intros Ha. destruct w as [p [|c]]; destruct a; try discriminate Ha;
    cbn [perform fst snd]; try reflexivity.
  - destruct (existsb _ _); reflexivity.
  - unfold visible. cbn [snd lift]. apply resize_live_keeps.
  - destruct (existsb _ _); [|reflexivity].
    unfold animate, visible. cbn [fst snd lift].
    destruct (isVisible c) eqn:Hv.
    + apply animate_live_shown, Hv.
    + rewrite animate_live_hidden by exact Hv. exact Hv.
  - unfold start, start_live, visible. cbn [fst snd lift].
    destruct (animationId c); [reflexivity|].
    destruct (isVisible c) eqn:Hv.
    + apply animate_live_shown, Hv.
    + rewrite animate_live_hidden by exact Hv. exact Hv.
  - unfold stop, stop_live, visible. cbn [fst snd lift].
    destruct (animationId c); reflexivity.
  - unfold animate, visible. cbn [fst snd lift].
    destruct (isVisible c) eqn:Hv.
    + apply animate_live_shown, Hv.
    + rewrite animate_live_hidden by exact Hv. exact Hv.
  - unfold visible. cbn [snd lift]. apply resize_live_keeps.
Qed.

Lemma perform_keeps_dormant n a w :
  observer_reports a = false -> dormant n w -> dormant n (perform a w).
Proof.
  intros Ha (Hv & Hr & Hn).
  split; [rewrite perform_keeps_visible by exact Ha; exact Hv|].
  destruct w as [p s]. destruct a; try discriminate Ha; cbn [perform fst snd].
  - destruct s as [|c]; [split; assumption|].
    destruct (resize_keeps_session (set_viewport w h p) c p) as [Hr' _].
    rewrite Hr'. split; [exact Hr|].
    unfold resize_live. destruct onResize; exact Hn.
  - split; assumption.
  - split; assumption.
  - split; [exact Hr|]. unfold take. destruct (existsb _ _); exact Hn.
  - destruct (existsb _ _); [|split; assumption].
    rewrite animate_hidden by exact Hv. split; assumption.
  - rewrite start_idle by exact Hr. rewrite animate_hidden by exact Hv.
    split; assumption.
  - rewrite stop_idle by exact Hr. split; assumption.
  - rewrite animate_hidden by exact Hv. split; assumption.
  - unfold resize. cbn [fst snd]. destruct s as [|c]; [split; assumption|].
    destruct (resize_keeps_session p c p) as [Hr' _].
    rewrite Hr'. split; [exact Hr|].
    unfold resize_live. destruct onResize; exact Hn.
Qed.

(** X2: isVisible is written by the observer's callback only: no window
    event, no frame and no call of start, stop, animate or resize changes
    it.  So a session that is hidden and idle stays hidden and idle, and
    no animation frame is requested for it, until the observer reports. *)
Theorem only_the_observer_shows w actions :
  existsb observer_reports actions = false ->
  visible (run actions w) = visible w /\
  (visible w = false -> running w = false ->
   running (run actions w) = false /\
   nextHandle (frames (fst (run actions w))) = nextHandle (frames (fst w))).
Proof.
  unfold run. revert w.
  induction actions as [|a actions IH]; intros w Hno; cbn [fold_left].
  - auto.
  - cbn [existsb] in Hno. apply orb_false_iff in Hno as [Ha Hno].
    destruct (IH (perform a w) Hno) as [Hv Hd]. split.
    + rewrite Hv. apply perform_keeps_visible, Ha.
    + intros Hh Hi.
      destruct (@perform_keeps_dormant (nextHandle (frames (fst w))) a w Ha)
        as (Hv' & Hr' & Hn'); [repeat split; assumption|].
      destruct (Hd Hv' Hr') as [H1 H2]. split; [exact H1 | congruence].
Qed.

Lemma animate_live_calls p c :
  appending effect -> quiet effect -> isVisible c = true ->
  exists cs,
    calls (fst (animate_live p c)) =
      calls p ++ [clearRect 0 0 (num (width c)) (num (height c))] ++ cs
        ++ [requestAnimationFrame_call (nextHandle (frames p))] /\
    animationId (snd (animate_live p c)) = Some (nextHandle (frames p)).
Proof.
  intros Happ [_ Hquiet] Hv. unfold animate_live. rewrite Hv. cbn [negb].
  unfold appending in Happ.
  destruct draw as [d|].
  - specialize (Happ d eq_refl (width c) (height c) (fields c)
                  (emit [clearRect 0 0 (num (width c)) (num (height c))] p)).
    specialize (Hquiet d eq_refl (width c) (height c) (fields c)
                  (emit [clearRect 0 0 (num (width c)) (num (height c))] p)).
    destruct (d _ _ _ _) as [e p2]. destruct Happ as [cs Hcs]. simpl in *.
    exists cs. rewrite Hcs, Hquiet, <- !app_assoc. split; reflexivity.
  - exists []. simpl. rewrite <- app_assoc. split; reflexivity.
Qed.

Lemma animate_live_scheduler p c :
  quiet effect -> isVisible c = true ->
  nextHandle (frames (fst (animate_live p c))) = Pos.succ (nextHandle (frames p)) /\
  queued (frames (fst (animate_live p c))) =
    queued (frames p) ++ [nextHandle (frames p)].
Proof.
  intros [_ Hquiet] Hv. unfold animate_live. rewrite Hv. cbn [negb].
  destruct draw as [d|].
  - specialize (Hquiet d eq_refl (width c) (height c) (fields c)
                  (emit [clearRect 0 0 (num (width c)) (num (height c))] p)).
    destruct (d _ _ _ _) as [e p2]. simpl in *. rewrite Hquiet. auto.
  - simpl. auto.
Qed.

End MoreLifecycle.

Lemma hero_appending : appending HeroCanvas.effect.
Proof.
  intros d Hd w h e p. simpl in Hd. injection Hd as <-.
  unfold HeroCanvas.draw. destruct (HeroCanvas.each _ _ _) as [ps cs].
  simpl. rewrite <- app_assoc. eexists. reflexivity.
Qed.

Lemma emit_appends cs0 p0 q :
  (exists cs, calls q = calls p0 ++ cs) ->
  exists cs, calls (emit cs0 q) = calls p0 ++ cs.
Proof.
  intros [cs H]. exists (cs ++ cs0). simpl. rewrite H, app_assoc. reflexivity.
Qed.

Lemma appends_refl p0 : exists cs, calls p0 = calls p0 ++ cs.
Proof. exists []. rewrite app_nil_r. reflexivity. Qed.

Lemma about_appending : appending AboutCanvas.effect.
Proof.
  intros d Hd w h e p. simpl in Hd. injection Hd as <-.
  unfold AboutCanvas.draw.
  pose proof (@forEach_page AboutCanvas.Dot
                (fun q => exists cs, calls q = calls p ++ cs)
                AboutCanvas.draw_dot) as H.
  specialize (H (fun a q Hq => @emit_appends _ _ _ Hq) (AboutCanvas.dots e)
                (emit [set_fillStyle neonPurple] p)
                (@emit_appends _ _ _ (appends_refl p))).
  destruct (forEach _ _ _) as [ds p2]. exact H.
Qed.

Lemma skills_appending : appending SkillsCanvas.effect.
Proof.
  intros d Hd w h e p. simpl in Hd. injection Hd as <-.
  unfold SkillsCanvas.draw.
  pose proof (@forEach_page SkillsCanvas.Shape
                (fun q => exists cs, calls q = calls p ++ cs)
                (SkillsCanvas.draw_shape h)) as H.
  specialize (H (fun a q Hq => @emit_appends _ _ _ Hq) (SkillsCanvas.shapes e)
                (emit [set_strokeStyle neonPurple; set_lineWidth 1.5] p)
                (@emit_appends _ _ _ (appends_refl p))).
  destruct (forEach _ _ _) as [ds p2]. exact H.
Qed.

Lemma projects_appending : appending ProjectsCanvas.effect.
Proof.
  intros d Hd w h e p. simpl in Hd. injection Hd as <-.
  unfold ProjectsCanvas.draw. cbn [snd].
  apply (@for_lt_invariant Page (fun q => exists cs, calls q = calls p ++ cs)).
  - intros i q Hq. apply emit_appends, Hq.
  - apply emit_appends, appends_refl.
Qed.

Lemma contact_appending : appending ContactCanvas.effect.
Proof.
  intros d Hd w h e p. simpl in Hd. injection Hd as <-.
  unfold ContactCanvas.draw.
  pose proof (@forEach_page ContactCanvas.Particle
                (fun q => exists cs, calls q = calls p ++ cs)
                (ContactCanvas.draw_particle w h
                   (rectTop (emit [set_fillStyle neonPurple] p)))) as H.
  specialize (H (fun a q Hq => @emit_appends _ _ _ Hq) (ContactCanvas.particles e)
                (emit [set_fillStyle neonPurple] p)
                (@emit_appends _ _ _ (appends_refl p))).
  destruct (forEach _ _ _) as [ds p2]. exact H.
Qed.

(** X3: a frame step of a visible session first clears the whole canvas,
    then draws, and last requests one animation frame, whose handle
    it keeps in animationId: the calls it adds begin with clearRect(0, 0,
    width, height) and end with the one requestAnimationFrame.  This holds
    for every subclass whose draw only adds calls and leaves the scheduler
    alone, as the five of the script do. *)
Theorem visible_frame_clears_then_requests :
  (forall (E : Type) (effect : Effect E) (p : Page) (c : Canvas E),
     appending effect -> quiet effect -> isVisible c = true ->
     (exists cs,
        calls (fst (animate (p, Live c))) =
          calls p ++ [clearRect 0 0 (num (width c)) (num (height c))] ++ cs
            ++ [requestAnimationFrame_call (nextHandle (frames p))]) /\
     (exists c', snd (animate (p, Live c)) = Live c' /\
                 animationId c' = Some (nextHandle (frames p)) /\
                 width c' = width c /\ height c' = height c) /\
     queued (frames (fst (animate (p, Live c)))) =
       queued (frames p) ++ [nextHandle (frames p)] /\
     nextHandle (frames (fst (animate (p, Live c)))) =
       Pos.succ (nextHandle (frames p))) /\
  (appending HeroCanvas.effect /\ appending AboutCanvas.effect /\
   appending SkillsCanvas.effect /\ appending ProjectsCanvas.effect /\
   appending ContactCanvas.effect) /\
  (quiet HeroCanvas.effect /\ quiet AboutCanvas.effect /\
   quiet SkillsCanvas.effect /\ quiet ProjectsCanvas.effect /\
   quiet ContactCanvas.effect).
Proof.
  split; [|split].
  - intros E effect p c Happ Hq Hv. unfold animate. cbn [fst snd lift].
    destruct (animate_live_calls p c Happ Hq Hv) as [cs [Hcs Hid]].
    destruct (animate_live_scheduler p c Hq Hv) as [Hn Hqueue].
    split; [exists cs; exact Hcs|]. split; [|split; assumption].
    exists (snd (animate_live p c)). split; [reflexivity|].
    split; [exact Hid|].
    unfold animate_live. rewrite Hv. cbn [negb].
    destruct draw as [d|]; [destruct (d _ _ _ _)|]; split; reflexivity.
  - repeat split.
    + exact hero_appending.
    + exact about_appending.
    + exact skills_appending.
    + exact projects_appending.
    + exact contact_appending.
  - split; [exact hero_quiet|]. split; [exact about_quiet|].
    split; [exact skills_quiet|].
    split; [exact projects_quiet | exact contact_quiet].
Qed.

Lemma steady_follows (E : Type) (w : @World E) :
  steady w -> frames_follow_visibility w.
Proof.
  intros [Ha [Hi Hqueue]].
  unfold agrees, running, visible in Ha.
  unfold frames_follow_visibility, visible, active_loops, frame_pending.
  rewrite Hi, Hqueue. destruct (snd w) as [|c].
  - auto.
  - destruct (animationId c); rewrite <- Ha; repeat split; auto; discriminate.
Qed.

(** X4: while only the page acts on a session (observer callbacks, window
    events, whole frames), the browser holds one frame callback for it
    when it is visible and none when it is hidden, and none is in flight
    between events: a section out of view costs no frame.  This holds for
    each of the five sessions of the script. *)
Theorem hidden_sessions_hold_no_frame (id : string) (ids : list string)
    (vw vh : N) (top : R) (rnd : nat -> Unit01) (first : handle)
    (actions : list Action) :
  driven actions = true ->
  let p := page_load ids vw vh top rnd first in
  frames_follow_visibility (run actions (new_HeroCanvas id p)) /\
  frames_follow_visibility (run actions (new_AboutCanvas id p)) /\
  frames_follow_visibility (run actions (new_SkillsCanvas id p)) /\
  frames_follow_visibility (run actions (new_ProjectsCanvas id p)) /\
  frames_follow_visibility (run actions (new_ContactCanvas id p)).
Proof.
  intros Hd p.
  assert (H : forall (E : Type) (effect : Effect E),
             quiet effect ->
             frames_follow_visibility (run actions (constructor id p))).
  { intros E effect Hq. apply steady_follows.
    apply (driven_steady Hq); [exact Hd | apply (constructor_steady Hq)]. }
  split; [exact (H _ _ hero_quiet)|].
  split; [exact (H _ _ about_quiet)|].
  split; [exact (H _ _ skills_quiet)|].
  split; [exact (H _ _ projects_quiet) | exact (H _ _ contact_quiet)].
Qed.

(** ** Invariants of the fields through the lifecycle *)

Section FieldInvariants.
Context {E : Type} {effect : Effect E}.
Variable Inv : N -> N -> E -> Prop.
Hypothesis init_inv : forall w h p, Inv w h (fst (init w h p)).
Hypothesis draw_inv : forall d, draw = Some d ->
  forall w h e p, Inv w h e -> Inv w h (fst (d w h e p)).

Local Abbreviation kept := (keeps Inv).

Lemma animate_live_kept p c :
  kept (p, Live c) -> kept (lift (animate_live p c)).
Proof.
  unfold keeps. cbn [snd lift]. intros H. unfold animate_live.
  destruct (isVisible c); cbn [negb]; [|exact H].
  pose proof draw_inv as Hdraw. destruct draw as [d|].
  - specialize (Hdraw d eq_refl (width c) (height c) (fields c)
                  (emit [clearRect 0 0 (num (width c)) (num (height c))] p) H).
    destruct (d _ _ _ _) as [e p2]. exact Hdraw.
  - exact H.
Qed.

Lemma start_live_kept p c :
  kept (p, Live c) -> kept (lift (start_live p c)).
Proof.
  intros H. unfold start_live. destruct (animationId c);
    [exact H | apply animate_live_kept, H].
Qed.

Lemma stop_live_kept p c :
  kept (p, Live c) -> kept (lift (stop_live p c)).
Proof. intros H. unfold stop_live. destruct (animationId c); exact H. Qed.

Lemma on_intersection_kept entries : forall p c,
  kept (p, Live c) -> kept (lift (on_intersection entries p c)).
Proof.
  unfold on_intersection.
  induction entries as [|b entries IH]; intros p c H; cbn [fold_left]; [exact H|].
  assert (Hb : kept (lift (on_entry b (p, c)))).
  { destruct b; cbn [on_entry];
      [apply start_live_kept | apply stop_live_kept]; exact H. }
  destruct (on_entry b (p, c)) as [p' c']. apply IH. exact Hb.
Qed.

Local Abbreviation resize_inv := (resize_stable Inv).

Lemma resize_live_kept p c :
  resize_inv -> kept (p, Live c) -> kept (lift (resize_live p c)).
Proof.
  unfold keeps, resize_stable, resized_fields, resize_live. cbn [snd lift].
  intros Hr H. specialize (Hr (width c) (height c) (innerWidth p) (innerHeight p)
                              (fields c) H).
  destruct onResize; exact Hr.
Qed.

Lemma perform_kept a (w : @World E) :
  (resizes a = true -> resize_inv) -> kept w -> kept (perform a w).
Proof.
  intros Hr H. destruct w as [p s].
  destruct a; cbn [perform fst snd].
  - destruct s as [|c]; [exact H | apply on_intersection_kept, H].
  - destruct s as [|c]; [exact I|].
    apply resize_live_kept; [apply Hr; reflexivity | exact H].
  - exact H.
  - exact H.
  - exact H.
  - destruct (existsb _ _); [|exact H].
    unfold animate. cbn [fst snd]. destruct s as [|c]; [exact I|].
    apply animate_live_kept. exact H.
  - unfold start. cbn [fst snd]. destruct s as [|c]; [exact I|].
    apply start_live_kept, H.
  - unfold stop. cbn [fst snd]. destruct s as [|c]; [exact I|].
    apply stop_live_kept, H.
  - unfold animate. cbn [fst snd]. destruct s as [|c]; [exact I|].
    apply animate_live_kept, H.
  - unfold resize. cbn [fst snd]. destruct s as [|c]; [exact I|].
    apply resize_live_kept; [apply Hr; reflexivity | exact H].
Qed.

Lemma run_kept actions : forall w : @World E,
  (existsb resizes actions = true -> resize_inv) -> kept w ->
  kept (run actions w).
Proof.
  unfold run. induction actions as [|a actions IH]; intros w Hr H;
    cbn [fold_left]; [exact H|].
  cbn [existsb] in Hr. apply IH.
  - intros Hex. apply Hr. rewrite Hex. apply orb_true_r.
  - apply perform_kept; [|exact H].
    intros Ha. apply Hr. rewrite Ha. reflexivity.
Qed.

Lemma constructor_kept id p : kept (constructor id p).
Proof.
  unfold constructor, keeps. destruct (negb _); [exact I|].
  pose proof (init_inv (innerWidth (emit [getContext] p))
                (innerHeight (emit [getContext] p)) (emit [getContext] p)) as H.
  destruct (init _ _ _) as [e p2]. exact H.
Qed.

End FieldInvariants.

(** ** The loops, counted *)

Lemma for_lt_count (A : Type) (size : A -> nat) (m : nat) (limit : N)
    (step : positive) (body : N -> A -> A) :
  (forall x acc, size (body x acc) = (size acc + m)%nat) ->
  forall x acc,
    size (for_lt limit step body x acc) =
    (size acc + m * N.to_nat (ceil_div (limit - x) step))%nat.
Proof.
  intros Hbody x.
  remember (N.to_nat (limit - x)) as k eqn:Hk. revert x Hk.
  induction k as [k IH] using lt_wf_ind. intros x Hk acc.
  rewrite for_lt_step. destruct (x <? limit)%N eqn:Hlt.
  - apply N.ltb_lt in Hlt.
    rewrite (IH (N.to_nat (limit - (x + Npos step)))) by lia.
    rewrite Hbody, (ceil_div_round step Hlt). lia.
  - apply N.ltb_ge in Hlt. rewrite (ceil_div_done step Hlt). lia.
Qed.

Lemma ceil_div_one (a : N) : ceil_div a 1 = a.
Proof. unfold ceil_div. rewrite N.div_1_r. lia. Qed.

Lemma push_n_length (A : Type) (n : N) (make : Page -> A * Page)
    (start : list A * Page) :
  length (fst (push_n n make start)) = (length (fst start) + N.to_nat n)%nat.
Proof.
  unfold push_n.
  rewrite (@for_lt_count (list A * Page) (fun acc => length (fst acc)) 1).
  - rewrite N.sub_0_r, ceil_div_one. lia.
  - intros x [l p]. simpl. destruct (make p). simpl. rewrite length_app. reflexivity.
Qed.

Lemma forEach_length (A : Type) (f : A -> Page -> A * Page) (items : list A) :
  forall p, length (fst (forEach f items p)) = length items.
Proof.
  induction items as [|a items IH]; intros p; simpl; [reflexivity|].
  destruct (f a p) as [a' p1]. specialize (IH p1).
  destruct (forEach f items p1) as [r p2]. simpl in *. rewrite IH. reflexivity.
Qed.

Lemma forEach_map (A : Type) (g : A -> A) (f : A -> Page -> A * Page) :
  (forall a p, fst (f a p) = g a) ->
  forall items p, fst (forEach f items p) = map g items.
Proof.
  intros Hf. induction items as [|a items IH]; intros p; simpl; [reflexivity|].
  specialize (Hf a p). destruct (f a p) as [a' p1]. specialize (IH p1).
  destruct (forEach f items p1) as [r p2]. simpl in *. congruence.
Qed.

Lemma hero_each_map (w h : N) (ps : list HeroCanvas.Particle) :
  fst (HeroCanvas.each w h ps) = map (HeroCanvas.advance w h) ps.
Proof.
  induction ps as [|q rest IH]; simpl; [reflexivity|].
  destruct (HeroCanvas.each w h rest) as [rest' cs]. simpl in *.
  rewrite IH. reflexivity.
Qed.

Lemma hero_draw_map (w h : N) (f : HeroCanvas.Fields) (p : Page) :
  HeroCanvas.particles (fst (HeroCanvas.draw w h f p)) =
  map (HeroCanvas.advance w h) (HeroCanvas.particles f).
Proof.
  unfold HeroCanvas.draw. rewrite <- hero_each_map.
  destruct (HeroCanvas.each _ _ _). reflexivity.
Qed.

(** X5: no frame step, no resize and no other event creates or destroys
    an entity of the particle effects: in every state a session reaches,
    the hero effect has its 80 particles, the floating shapes are 15 and
    the gravity particles 50. *)
Theorem entity_counts_are_fixed (id : string) (p : Page) (actions : list Action) :
  keeps (fun _ _ f => length (HeroCanvas.particles f) = 80%nat)
    (run actions (new_HeroCanvas id p)) /\
  keeps (fun _ _ f => length (SkillsCanvas.shapes f) = 15%nat)
    (run actions (new_SkillsCanvas id p)) /\
  keeps (fun _ _ f => length (ContactCanvas.particles f) = 50%nat)
    (run actions (new_ContactCanvas id p)).
Proof.
  split; [|split]; apply run_kept;
    try (intros _ w h w' h' e H; exact H);
    try apply constructor_kept.
  - intros d Hd w h e q H. simpl in Hd. injection Hd as <-.
    rewrite hero_draw_map, length_map. exact H.
  - intros w h q. cbn [init HeroCanvas.effect]. unfold HeroCanvas.init.
    pose proof (push_n_length 80 (HeroCanvas.createParticle w h) ([], q)) as H.
    destruct (push_n _ _ _). exact H.
  - intros d Hd w h e q H. simpl in Hd. injection Hd as <-.
    unfold SkillsCanvas.draw.
    pose proof (forEach_length (SkillsCanvas.draw_shape h) (SkillsCanvas.shapes e)
                  (emit [set_strokeStyle neonPurple; set_lineWidth 1.5] q)) as Hl.
    destruct (forEach _ _ _). simpl in *. congruence.
  - intros w h q. cbn [init SkillsCanvas.effect]. unfold SkillsCanvas.init.
    pose proof (push_n_length 15 (SkillsCanvas.createShape w h) ([], q)) as H.
    destruct (push_n _ _ _). exact H.
  - intros d Hd w h e q H. simpl in Hd. injection Hd as <-.
    unfold ContactCanvas.draw.
    pose proof (forEach_length
                  (ContactCanvas.draw_particle w h
                     (rectTop (emit [set_fillStyle neonPurple] q)))
                  (ContactCanvas.particles e)
                  (emit [set_fillStyle neonPurple] q)) as Hl.
    destruct (forEach _ _ _). simpl in *. congruence.
  - intros w h q. cbn [init ContactCanvas.effect]. unfold ContactCanvas.init.
    pose proof (push_n_length 50 (ContactCanvas.createParticle w h) ([], q)) as H.
    destruct (push_n _ _ _). exact H.
Qed.

(** ** The hero particles *)

Lemma unit01_centered (r : Unit01) : -0.75 <= (r - 0.5) * 1.5 <= 0.75.
Proof. pose proof (sample_range r). lra. Qed.

(** One coordinate of [advance]: move, then reverse the velocity when the
    new coordinate is off the side. *)
Lemma tethered_step (limit : N) (x v : R) :
  tethered limit x v ->
  tethered limit (x + v)
    (if lt_num (x + v) 0 || lt_num (num limit) (x + v) then v * -1 else v).
Proof.
  unfold tethered, lt_num. intros H.
  destruct (Rlt_dec (x + v) 0), (Rlt_dec (num limit) (x + v)); simpl; lra.
Qed.

Lemma tethered_near (limit : N) (x v : R) :
  tethered limit x v -> -0.75 <= v <= 0.75 -> -0.75 <= x <= num limit + 0.75.
Proof. unfold tethered. intros H Hv. lra. Qed.

Lemma advance_ok (w h : N) (q : HeroCanvas.Particle) :
  hero_particle_ok w h q -> hero_particle_ok w h (HeroCanvas.advance w h q).
Proof.
  intros (Hx & Hy & Hvx & Hvy & Hs). unfold hero_particle_ok, HeroCanvas.advance.
  cbn [HeroCanvas.x HeroCanvas.y HeroCanvas.vx HeroCanvas.vy HeroCanvas.size].
  split; [apply tethered_step, Hx|]. split; [apply tethered_step, Hy|].
  split; [destruct (_ || _); lra|]. split; [destruct (_ || _); lra | exact Hs].
Qed.

Lemma createParticle_ok (w h : N) (p : Page) :
  hero_particle_ok w h (fst (HeroCanvas.createParticle w h p)).
Proof.
  unfold HeroCanvas.createParticle, hero_particle_ok, tethered. simpl.
  split; [left; apply unit01_scaled|]. split; [left; apply unit01_scaled|].
  split; [apply unit01_centered|]. split; [apply unit01_centered|].
  pose proof (sample_range (entropy p (S (S (S (S (rolls p))))))). lra.
Qed.

(** X6: as long as the window is not resized, every hero particle stays
    tethered to the canvas: it is on it, or its next move brings it back;
    its speed on each axis never exceeds the 0.75 of the setup and its
    size stays in [1, 3).  So no particle is ever more than 0.75 off the
    canvas. *)
Theorem hero_particles_stay_tethered (id : string) (p : Page)
    (actions : list Action) :
  existsb resizes actions = false ->
  keeps (fun w h f => Forall (hero_particle_ok w h) (HeroCanvas.particles f))
    (run actions (new_HeroCanvas id p)) /\
  keeps (fun w h f => Forall (hero_particle_near w h) (HeroCanvas.particles f))
    (run actions (new_HeroCanvas id p)).
Proof.
  intros Hno.
  assert (H : keeps (fun w h f => Forall (hero_particle_ok w h)
                                    (HeroCanvas.particles f))
                (run actions (new_HeroCanvas id p))).
  { apply run_kept.
    - intros d Hd w h e q Hf. simpl in Hd. injection Hd as <-.
      rewrite hero_draw_map. apply Forall_map.
      eapply Forall_impl; [|exact Hf]. intros a. apply advance_ok.
    - rewrite Hno. discriminate.
    - apply constructor_kept. intros w h q.
      cbn [init HeroCanvas.effect]. unfold HeroCanvas.init.
      assert (Hp : (fun lp => Forall (hero_particle_ok w h) (fst lp))
                     (push_n 80 (HeroCanvas.createParticle w h) ([], q))).
      { apply push_n_invariant; [|constructor].
        intros l q0 Hl. simpl. apply Forall_app. split; [exact Hl|].
        constructor; [apply createParticle_ok | constructor]. }
      destruct (push_n _ _ _). exact Hp. }
  split; [exact H|].
  unfold keeps in *. destruct (snd _) as [|c]; [exact I|].
  eapply Forall_impl; [|exact H].
  intros a (Hx & Hy & Hvx & Hvy & _). split.
  - apply (tethered_near Hx Hvx).
  - apply (tethered_near Hy Hvy).
Qed.

(** ** The grid *)

Lemma force_range (m : Mouse.t) (top : R) (d : AboutCanvas.Dot) :
  0 <= AboutCanvas.force m top d <= 1.
Proof.
  unfold AboutCanvas.force.
  pose proof (sqrt_pos (AboutCanvas.dx m d * AboutCanvas.dx m d
                        + AboutCanvas.dy m top d * AboutCanvas.dy m top d)) as Hd.
  fold (AboutCanvas.dist m top d) in Hd.
  unfold Rmax. destruct (Rle_dec 0 (150 - AboutCanvas.dist m top d)); lra.
Qed.

Lemma move_dot_near (m : Mouse.t) (top : R) (d : AboutCanvas.Dot) :
  dot_near_origin d -> dot_near_origin (AboutCanvas.move_dot m top d).
Proof.
  intros [Hx Hy]. unfold dot_near_origin, AboutCanvas.move_dot.
  cbn [AboutCanvas.x AboutCanvas.y AboutCanvas.originX AboutCanvas.originY].
  pose proof (force_range m top d) as Hf.
  set (a := atan2 _ _).
  pose proof (COS_bound a) as Hc. pose proof (SIN_bound a) as Hs.
  set (F := AboutCanvas.force m top d) in *.
  assert (Hcm : -40 <= cos a * (F * 40) <= 40) by nra.
  assert (Hsm : -40 <= sin a * (F * 40) <= 40) by nra.
  split; lra.
Qed.

Lemma createDots_near (w h : N) (f : AboutCanvas.Fields) :
  Forall dot_near_origin (AboutCanvas.dots (AboutCanvas.createDots w h f)).
Proof.
  unfold AboutCanvas.createDots. simpl.
  apply for_lt_invariant; [|constructor].
  intros x0 acc Hacc. apply for_lt_invariant; [|exact Hacc].
  intros y0 acc' Hacc'. apply Forall_app. split; [exact Hacc'|].
  constructor; [|constructor]. unfold dot_near_origin. simpl. lra.
Qed.

Lemma about_draw_map (w h : N) (f : AboutCanvas.Fields) (p : Page) :
  AboutCanvas.dots (fst (AboutCanvas.draw w h f p)) =
  map (AboutCanvas.move_dot (mouse p) (rectTop p)) (AboutCanvas.dots f).
Proof.
  unfold AboutCanvas.draw.
  assert (H : forall items q,
             mouse q = mouse p -> rectTop q = rectTop p ->
             fst (forEach AboutCanvas.draw_dot items q) =
             map (AboutCanvas.move_dot (mouse p) (rectTop p)) items).
  { induction items as [|a items IH]; intros q Hm Ht; simpl; [reflexivity|].
    specialize (IH (emit [beginPath;
                          arc (AboutCanvas.x (AboutCanvas.move_dot (mouse q) (rectTop q) a))
                              (AboutCanvas.y (AboutCanvas.move_dot (mouse q) (rectTop q) a))
                              2 0 (PI * 2); fill] q) Hm Ht).
    destruct (forEach _ _ _) as [r p2]. simpl in *. rewrite IH, Hm, Ht.
    reflexivity. }
  specialize (H (AboutCanvas.dots f) (emit [set_fillStyle neonPurple] p)
                eq_refl eq_refl).
  destruct (forEach _ _ _). simpl in *. exact H.
Qed.

(** X7: wherever the mouse goes and however the window is resized or
    scrolled, every dot of the grid stays within 40 of its origin on each
    axis, and a frame step never moves an origin. *)
Theorem dots_stay_near_their_origin :
  (forall (id : string) (p : Page) (actions : list Action),
     keeps (fun _ _ f => Forall dot_near_origin (AboutCanvas.dots f))
       (run actions (new_AboutCanvas id p))) /\
  (forall (w h : N) (f : AboutCanvas.Fields) (p : Page),
     map AboutCanvas.originX (AboutCanvas.dots (fst (AboutCanvas.draw w h f p))) =
     map AboutCanvas.originX (AboutCanvas.dots f) /\
     map AboutCanvas.originY (AboutCanvas.dots (fst (AboutCanvas.draw w h f p))) =
     map AboutCanvas.originY (AboutCanvas.dots f)).
Proof.
  split.
  - intros id p actions. apply run_kept.
    + intros d Hd w h e q Hf. simpl in Hd. injection Hd as <-.
      rewrite about_draw_map. apply Forall_map.
      eapply Forall_impl; [|exact Hf]. intros a. apply move_dot_near.
    + intros _ w h w' h' e _. apply createDots_near.
    + apply constructor_kept. intros w h q. apply createDots_near.
  - intros w h f p. rewrite about_draw_map, !map_map. split; reflexivity.
Qed.

(** ** The floating shapes *)

Lemma lt_num_true (a b : R) : lt_num a b = true <-> a < b.
Proof.
  unfold lt_num. destruct (Rlt_dec a b); split; intros; auto;
    try discriminate; contradiction.
Qed.

Lemma leg_le_hypotenuse (a b : R) :
  - sqrt (a * a + b * b) <= a <= sqrt (a * a + b * b).
Proof.
  pose proof (sqrt_pos (a * a + b * b)) as Hpos.
  assert (Hsq : sqrt (a * a + b * b) * sqrt (a * a + b * b) = a * a + b * b)
    by (apply sqrt_sqrt; nra).
  split; nra.
Qed.

Lemma createShape_ok (w h : N) (p : Page) :
  shape_ok (fst (SkillsCanvas.createShape w h p)).
Proof.
  unfold SkillsCanvas.createShape, shape_ok. simpl.
  pose proof (sample_range (entropy p (S (S (rolls p))))) as H3.
  pose proof (sample_range (entropy p (S (S (S (S (rolls p))))))) as H5.
  pose proof (sample_range (entropy p (S (S (S (S (S (rolls p)))))))) as H6.
  pose proof (unit01_scaled (entropy p (S (rolls p))) h) as H2.
  repeat split; lra.
Qed.

Lemma draw_shape_fields (h : N) (s : SkillsCanvas.Shape) (p : Page) :
  SkillsCanvas.size (fst (SkillsCanvas.draw_shape h s p)) = SkillsCanvas.size s /\
  SkillsCanvas.speed (fst (SkillsCanvas.draw_shape h s p)) = SkillsCanvas.speed s /\
  SkillsCanvas.rotSpeed (fst (SkillsCanvas.draw_shape h s p)) = SkillsCanvas.rotSpeed s /\
  SkillsCanvas.type (fst (SkillsCanvas.draw_shape h s p)) = SkillsCanvas.type s /\
  SkillsCanvas.angle (fst (SkillsCanvas.draw_shape h s p)) =
    SkillsCanvas.angle s + SkillsCanvas.rotSpeed s /\
  -50 <= SkillsCanvas.y (fst (SkillsCanvas.draw_shape h s p)) /\
  (SkillsCanvas.y (fst (SkillsCanvas.draw_shape h s p)) =
     SkillsCanvas.y s - SkillsCanvas.speed s \/
   SkillsCanvas.y (fst (SkillsCanvas.draw_shape h s p)) = num h + 50).
Proof.
  unfold SkillsCanvas.draw_shape. cbn [fst].
  unfold SkillsCanvas.recycle, SkillsCanvas.avoid.
  pose proof (num_nonneg h) as Hh.
  destruct (lt_num (SkillsCanvas.dist _ _ _) 200);
    cbn [SkillsCanvas.y SkillsCanvas.drift];
    match goal with |- context [lt_num ?a ?b] => destruct (lt_num a b) eqn:Hy end;
    cbn [SkillsCanvas.x SkillsCanvas.y SkillsCanvas.size SkillsCanvas.angle
         SkillsCanvas.speed SkillsCanvas.rotSpeed SkillsCanvas.type
         SkillsCanvas.drift];
    try apply lt_num_false in Hy; repeat split; auto; lra.
Qed.

Lemma draw_shape_ok (h : N) (s : SkillsCanvas.Shape) (p : Page) :
  shape_ok s -> shape_ok (fst (SkillsCanvas.draw_shape h s p)).
Proof.
  intros (H1 & H2 & H3 & _).
  destruct (draw_shape_fields h s p) as (E1 & E2 & E3 & _ & _ & Hy & _).
  unfold shape_ok. rewrite E1, E2, E3. auto.
Qed.

(** X8: in every state a session of the floating shapes reaches, each
    shape keeps the size, the speed and the rotation speed its setup drew
    (size in [10, 40), speed in [0.2, 0.7), rotation speed within 0.01)
    and is never higher than 50 above the canvas top; a frame step leaves
    size, speed, rotation speed and type as they are, turns the shape by
    its rotation speed and either raises it by its speed or sends it to 50
    below the canvas bottom. *)
Theorem shapes_keep_their_make :
  (forall (id : string) (p : Page) (actions : list Action),
     keeps (fun _ _ f => Forall shape_ok (SkillsCanvas.shapes f))
       (run actions (new_SkillsCanvas id p))) /\
  (forall (h : N) (s : SkillsCanvas.Shape) (p : Page),
     let s' := fst (SkillsCanvas.draw_shape h s p) in
     SkillsCanvas.size s' = SkillsCanvas.size s /\
     SkillsCanvas.speed s' = SkillsCanvas.speed s /\
     SkillsCanvas.rotSpeed s' = SkillsCanvas.rotSpeed s /\
     SkillsCanvas.type s' = SkillsCanvas.type s /\
     SkillsCanvas.angle s' = SkillsCanvas.angle s + SkillsCanvas.rotSpeed s /\
     -50 <= SkillsCanvas.y s' /\
     (SkillsCanvas.y s' = SkillsCanvas.y s - SkillsCanvas.speed s \/
      SkillsCanvas.y s' = num h + 50)).
Proof.
  split.
  - intros id p actions. apply run_kept.
    + intros d Hd w h e q Hf. simpl in Hd. injection Hd as <-.
      unfold SkillsCanvas.draw.
      destruct (@forEach_Forall SkillsCanvas.Shape shape_ok shape_ok
                  (fun _ => True) (SkillsCanvas.draw_shape h)) with
        (items := SkillsCanvas.shapes e)
        (p := emit [set_strokeStyle neonPurple; set_lineWidth 1.5] q)
        as [H1 _]; [ | exact Hf | exact I | ].
      * intros a q0 Ha _. split; [apply draw_shape_ok, Ha | exact I].
      * destruct (forEach _ _ _). exact H1.
    + intros _ w h w' h' e H. exact H.
    + apply constructor_kept. intros w h q.
      cbn [init SkillsCanvas.effect]. unfold SkillsCanvas.init.
      assert (Hp : (fun lp => Forall shape_ok (fst lp))
                     (push_n 15 (SkillsCanvas.createShape w h) ([], q))).
      { apply push_n_invariant; [|constructor].
        intros l q0 Hl. simpl. apply Forall_app. split; [exact Hl|].
        constructor; [apply createShape_ok | constructor]. }
      destruct (push_n _ _ _). exact Hp.
  - intros h s p. apply draw_shape_fields.
Qed.

(** X9: when the mouse is not exactly on a shape, a frame step moves the
    shape sideways by at most 1, and never towards the mouse; a shape 200
    or more away from the mouse is not moved sideways at all. *)
Theorem shapes_sidestep_by_at_most_one (h : N) (s : SkillsCanvas.Shape)
    (p : Page) :
  0 < SkillsCanvas.dist (mouse p) (rectTop p) (SkillsCanvas.drift s) ->
  let s' := fst (SkillsCanvas.draw_shape h s p) in
  -1 <= SkillsCanvas.x s' - SkillsCanvas.x s <= 1 /\
  (SkillsCanvas.x s <= Mouse.x (mouse p) -> SkillsCanvas.x s' <= SkillsCanvas.x s) /\
  (Mouse.x (mouse p) <= SkillsCanvas.x s -> SkillsCanvas.x s <= SkillsCanvas.x s') /\
  (200 <= SkillsCanvas.dist (mouse p) (rectTop p) (SkillsCanvas.drift s) ->
   SkillsCanvas.x s' = SkillsCanvas.x s).
Proof.
  intros Hpos s'. subst s'. unfold SkillsCanvas.draw_shape. cbn [fst].
  assert (Hx : forall t, SkillsCanvas.x (SkillsCanvas.recycle h t) = SkillsCanvas.x t).
  { intros t. unfold SkillsCanvas.recycle. destruct (lt_num _ _); reflexivity. }
  rewrite Hx. unfold SkillsCanvas.avoid.
  set (D := SkillsCanvas.dist (mouse p) (rectTop p) (SkillsCanvas.drift s)) in *.
  pose proof (leg_le_hypotenuse
                (SkillsCanvas.dx (mouse p) (SkillsCanvas.drift s))
                (SkillsCanvas.dy (mouse p) (rectTop p) (SkillsCanvas.drift s)))
    as Hleg.
  fold (SkillsCanvas.dist (mouse p) (rectTop p) (SkillsCanvas.drift s)) in Hleg.
  fold D in Hleg.
  assert (Hdx : SkillsCanvas.dx (mouse p) (SkillsCanvas.drift s)
                = Mouse.x (mouse p) - SkillsCanvas.x s) by reflexivity.
  destruct (lt_num D 200) eqn:Hnear.
  - cbn [SkillsCanvas.x SkillsCanvas.drift].
    set (q := SkillsCanvas.dx (mouse p) (SkillsCanvas.drift s) / D).
    assert (Hq : q * D = SkillsCanvas.dx (mouse p) (SkillsCanvas.drift s)).
    { unfold q. field. lra. }
    assert (Hq1 : -1 <= q <= 1) by (split; nra).
    repeat split; intros; try lra; try nra.
    apply lt_num_true in Hnear. lra.
  - repeat split; intros; cbn [SkillsCanvas.x SkillsCanvas.drift]; lra.
Qed.

(** ** The sine waves *)

Lemma wave_point_bounded (h : N) (off : R) (i x : N) :
  wave_call_bounded h i (ProjectsCanvas.wave_point h off i x).
Proof.
  unfold wave_call_bounded, ProjectsCanvas.wave_point.
  pose proof (SIN_bound (num x * 0.01 + off + num i)) as H1.
  pose proof (SIN_bound (num x * 0.005 + off * 0.5)) as H2.
  lra.
Qed.

Lemma wave_shape (w h : N) (off : R) (i : N) :
  Forall (wave_call_bounded h i) (ProjectsCanvas.wave w h off i) /\
  length (ProjectsCanvas.wave w h off i) = (N.to_nat w + 2)%nat.
Proof.
  unfold ProjectsCanvas.wave. split.
  - apply Forall_app. split; [constructor; [exact I | constructor]|].
    apply Forall_app. split; [|constructor; [exact I | constructor]].
    apply for_lt_invariant; [|constructor].
    intros x cs Hcs. apply Forall_app. split; [exact Hcs|].
    constructor; [apply wave_point_bounded | constructor].
  - rewrite !length_app.
    rewrite (@for_lt_length Call 1).
    + rewrite N.sub_0_r, ceil_div_one. simpl. lia.
    + intros x acc. rewrite length_app. reflexivity.
Qed.

(** X10: a frame step of the sine waves advances the offset by 0.05 and
    strokes five paths, the waves 0 to 4 in this order, after setting the
    stroke style and the line width; a wave is one point per pixel column
    of the canvas, and each point lies within 150 of the wave's baseline
    height / 2 + 20 i. *)
Theorem waves_stay_by_their_baseline :
  (forall (w h : N) (off : R) (i : N),
     Forall (wave_call_bounded h i) (ProjectsCanvas.wave w h off i) /\
     length (ProjectsCanvas.wave w h off i) = (N.to_nat w + 2)%nat) /\
  (forall (w h : N) (f : ProjectsCanvas.Fields) (p : Page),
     ProjectsCanvas.offset (fst (ProjectsCanvas.draw w h f p)) =
       ProjectsCanvas.offset f + 0.05 /\
     calls (snd (ProjectsCanvas.draw w h f p)) =
       calls p
         ++ [set_strokeStyle "rgba(176, 38, 255, 0.2)"; set_lineWidth 2]
         ++ ProjectsCanvas.wave w h (ProjectsCanvas.offset f + 0.05) 0
         ++ ProjectsCanvas.wave w h (ProjectsCanvas.offset f + 0.05) 1
         ++ ProjectsCanvas.wave w h (ProjectsCanvas.offset f + 0.05) 2
         ++ ProjectsCanvas.wave w h (ProjectsCanvas.offset f + 0.05) 3
         ++ ProjectsCanvas.wave w h (ProjectsCanvas.offset f + 0.05) 4).
Proof.
  split; [exact wave_shape|].
  intros w h f p. split; [reflexivity|].
  unfold ProjectsCanvas.draw. cbn [snd].
  do 6 (rewrite (for_lt_step 5); cbn [N.ltb N.compare Pos.compare Pos.compare_cont
                                      N.add Pos.add Pos.succ]).
  cbn [calls emit]. rewrite <- !app_assoc. reflexivity.
Qed.

(** ** The gravity particles *)

Lemma draw_particle_ok (w h : N) (top : R) (q : ContactCanvas.Particle)
    (p : Page) :
  particle_ok q -> particle_ok (fst (ContactCanvas.draw_particle w h top q p)).
Proof.
  intros (Hf & Hvx & Hvy). unfold ContactCanvas.draw_particle. cbn [fst random].
  unfold particle_ok, ContactCanvas.wrap, ContactCanvas.glide.
  cbn [ContactCanvas.friction ContactCanvas.vx ContactCanvas.vy].
  unfold ContactCanvas.attract.
  destruct (lt_num (ContactCanvas.dist (mouse p) top q) 300) eqn:Hnear;
    cbn [ContactCanvas.friction ContactCanvas.vx ContactCanvas.vy];
    rewrite Hf; [|repeat split; lra].
  apply lt_num_true in Hnear.
  pose proof (leg_le_hypotenuse (ContactCanvas.dx (mouse p) q)
                (ContactCanvas.dy (mouse p) top q)) as Hx.
  pose proof (leg_le_hypotenuse (ContactCanvas.dy (mouse p) top q)
                (ContactCanvas.dx (mouse p) q)) as Hy.
  rewrite Rplus_comm in Hy.
  fold (ContactCanvas.dist (mouse p) top q) in Hx, Hy.
  repeat split; lra.
Qed.

Lemma createParticle_still (w h : N) (p : Page) :
  particle_ok (fst (ContactCanvas.createParticle w h p)) /\
  particle_still (fst (ContactCanvas.createParticle w h p)).
Proof.
  unfold particle_ok, particle_still, ContactCanvas.createParticle. simpl.
  pose proof (unit01_scaled (entropy p (rolls p)) w). repeat split; lra.
Qed.

(** X11: in every state a session of the gravity particles reaches,
    wherever the mouse goes, each particle has friction 0.95 and a
    velocity of at most 5.7 on each axis: a frame adds at most 0.3 (0.001
    times a distance below 300) before the friction is applied. *)
Theorem gravity_particles_have_a_speed_limit (id : string) (p : Page)
    (actions : list Action) :
  keeps (fun _ _ f => Forall particle_ok (ContactCanvas.particles f))
    (run actions (new_ContactCanvas id p)).
Proof.
  apply run_kept.
  - intros d Hd w h e q Hf. simpl in Hd. injection Hd as <-.
    unfold ContactCanvas.draw.
    destruct (@forEach_Forall ContactCanvas.Particle particle_ok particle_ok
                (fun _ => True)
                (ContactCanvas.draw_particle w h
                   (rectTop (emit [set_fillStyle neonPurple] q)))) with
      (items := ContactCanvas.particles e)
      (p := emit [set_fillStyle neonPurple] q)
      as [H1 _]; [ | exact Hf | exact I | ].
    + intros a q0 Ha _. split; [apply draw_particle_ok, Ha | exact I].
    + destruct (forEach _ _ _). exact H1.
  - intros _ w h w' h' e H. exact H.
  - apply constructor_kept. intros w h q.
    cbn [init ContactCanvas.effect]. unfold ContactCanvas.init.
    assert (Hp : (fun lp => Forall particle_ok (fst lp))
                   (push_n 50 (ContactCanvas.createParticle w h) ([], q))).
    { apply push_n_invariant; [|constructor].
      intros l q0 Hl. simpl. apply Forall_app. split; [exact Hl|].
      constructor; [apply createParticle_still | constructor]. }
    destruct (push_n _ _ _). exact Hp.
Qed.

Lemma draw_particle_still (w h : N) (top : R) (q : ContactCanvas.Particle)
    (p : Page) :
  mouse p = Mouse.offscreen -> particle_still q ->
  particle_still (fst (ContactCanvas.draw_particle w h top q p)) /\
  mouse (snd (ContactCanvas.draw_particle w h top q p)) = Mouse.offscreen.
Proof.
  intros Hm (Hx & Hvx & Hvy). split; [|exact Hm].
  unfold ContactCanvas.draw_particle. cbn [fst random]. rewrite Hm.
  unfold ContactCanvas.attract.
  destruct (@ContactFacts.particle_at_rest_unaffected q Hx top) as (_ & Hfar & _).
  rewrite Hfar.
  destruct (ContactFacts.wrap_in_bounds w h
              (ContactCanvas.glide (entropy p (rolls p)) q)) as [[Hx' _] _].
  unfold particle_still. split; [exact Hx'|].
  unfold ContactCanvas.wrap, ContactCanvas.glide.
  cbn [ContactCanvas.vx ContactCanvas.vy]. rewrite Hvx, Hvy. split; lra.
Qed.

(** X12: as long as the mouse has not moved from its default, the gravity
    particles have no velocity: in every state the session reaches each
    particle has vx = 0 and vy = 0, so that a frame moves it only by the
    random sideways step. *)
Theorem gravity_particles_rest_without_the_mouse (id : string)
    (ids : list string) (vw vh : N) (top : R) (rnd : nat -> Unit01)
    (first : handle) (actions : list Action) :
  forallb mouse_still actions = true ->
  Forall (fun q => ContactCanvas.vx q = 0 /\ ContactCanvas.vy q = 0)
    (entities ContactCanvas.particles
       (run actions (new_ContactCanvas id (page_load ids vw vh top rnd first)))).
Proof.
  intros Ha.
  assert (Hinit : forall w h q,
             Forall particle_still
               (ContactCanvas.particles (fst (ContactCanvas.init w h q))) /\
             mouse (snd (ContactCanvas.init w h q)) = mouse q).
  { intros w h q. unfold ContactCanvas.init.
    assert (Hp : (fun lp => Forall particle_still (fst lp) /\
                            mouse (snd lp) = mouse q)
                   (push_n 50 (ContactCanvas.createParticle w h) ([], q))).
    { apply push_n_invariant; [|split; [constructor | reflexivity]].
      intros l q0 [Hl Hq]. simpl. split; [|exact Hq].
      apply Forall_app. split; [exact Hl|].
      constructor; [apply createParticle_still | constructor]. }
    destruct (push_n _ _ _). exact Hp. }
  assert (H : at_rest (fun f => Forall particle_still (ContactCanvas.particles f))
                (run actions
                   (new_ContactCanvas id (page_load ids vw vh top rnd first)))).
  { apply run_resting; try assumption.
    - intros d Hd w h e q Hq He. simpl in Hd. injection Hd as <-.
      unfold ContactCanvas.draw.
      destruct (@forEach_Forall ContactCanvas.Particle particle_still
                  particle_still (fun q0 => mouse q0 = Mouse.offscreen)
                  (ContactCanvas.draw_particle w h
                     (rectTop (emit [set_fillStyle neonPurple] q)))) with
        (items := ContactCanvas.particles e)
        (p := emit [set_fillStyle neonPurple] q)
        as [H1 H2]; [ | exact He | exact Hq | ].
      + intros a q0 Ha0 Hq0. apply draw_particle_still; assumption.
      + destruct (forEach _ _ _). simpl in *. split; assumption.
    - intros f Hf. discriminate Hf.
    - apply constructor_resting; [exact Hinit | reflexivity]. }
  destruct H as [_ H]. unfold entities. destruct (snd _) as [|c]; [constructor|].
  eapply Forall_impl; [|exact H]. intros a (_ & Hvx & Hvy). split; assumption.
Qed.

(** ** The easing of the smooth scroll *)

Lemma two_to_minus_ten : Rpower 2 (-10) = / 1024.
Proof.
  replace (-10) with (- INR 10) by (simpl; lra).
  rewrite Rpower_Ropp, Rpower_pow by lra. f_equal. simpl. lra.
Qed.

(** X13: over the real numbers, the easing never exceeds 1, never
    decreases, is positive and at most 0.001 at t = 0 (it does not start
    from 0), stays positive from there on, and is exactly 1 from t = 1
    on. *)
Theorem easing_rises_to_one :
  (forall t, easing t <= 1) /\
  0 < easing 0 <= 0.001 /\
  (forall s t, s <= t -> easing s <= easing t) /\
  (forall t, 0 <= t -> 0 < easing t) /\
  (forall t, 1 <= t -> easing t = 1).
Proof.
  assert (Hmono : forall s t, s <= t ->
                    Rpower 2 (-10 * t) <= Rpower 2 (-10 * s)).
  { intros s t Hst. apply Rle_Rpower; lra. }
  assert (H0 : Rpower 2 (-10 * 0) = 1).
  { rewrite Rmult_0_r. apply Rpower_O. lra. }
  split; [|split; [|split; [|split]]].
  - intros t. unfold easing. apply Rmin_l.
  - unfold easing. rewrite H0. unfold Rmin.
    destruct (Rle_dec 1 (1.001 - 1)); lra.
  - intros s t Hst. specialize (Hmono s t Hst). unfold easing, Rmin.
    destruct (Rle_dec 1 (1.001 - Rpower 2 (-10 * s))),
             (Rle_dec 1 (1.001 - Rpower 2 (-10 * t))); lra.
  - intros t Ht. specialize (Hmono 0 t Ht). rewrite H0 in Hmono.
    unfold easing, Rmin.
    destruct (Rle_dec 1 (1.001 - Rpower 2 (-10 * t))); lra.
  - intros t Ht. specialize (Hmono 1 t Ht).
    rewrite Rmult_1_r, two_to_minus_ten in Hmono.
    unfold easing, Rmin.
    destruct (Rle_dec 1 (1.001 - Rpower 2 (-10 * t))); lra.
Qed.

(** ** The markup of splitText *)

Lemma splitText_markup_app (a b : string) :
  splitText_markup (a ++ b) = (splitText_markup a ++ splitText_markup b)%string.
Proof.
  induction a as [|c a IH]; simpl; [reflexivity|].
  rewrite IH. 
  generalize (char_span c) as s, (splitText_markup a) as u,
             (splitText_markup b) as v.
  induction s as [|x s IHs]; intros u v; simpl; [reflexivity|].
  rewrite IHs. reflexivity.
Qed.

(** X14: the markup splitText writes for a text determines the text: two
    texts with the same markup are the same text; the markup of a
    concatenation is the concatenation of the markups, and only the empty
    text has an empty markup. *)
Theorem splitText_markup_is_faithful :
  (forall a b, splitText_markup a = splitText_markup b -> a = b) /\
  (forall a b, splitText_markup (a ++ b) =
               (splitText_markup a ++ splitText_markup b)%string) /\
  (forall a, splitText_markup a = EmptyString <-> a = EmptyString).
Proof.
  assert (Hnonempty : forall c s, (char_span c ++ s)%string <> EmptyString).
  { intros c s. unfold char_span. destruct (Ascii.eqb c " "); simpl; discriminate. }
  split; [|split].
  - induction a as [|c a IH]; intros [|c' b] H; simpl in H.
    + reflexivity.
    + symmetry in H. destruct (Hnonempty _ _ H).
    + destruct (Hnonempty _ _ H).
    + unfold char_span in H.
      destruct (Ascii.eqb c " ") eqn:E1, (Ascii.eqb c' " ") eqn:E2;
        simpl in H; try discriminate H.
      * apply Ascii.eqb_eq in E1, E2. subst c c'.
        inversion H as [Hrest]. f_equal. apply IH. exact Hrest.
      * inversion H as [[Hc Hrest]]. f_equal. apply IH. exact Hrest.
  - exact splitText_markup_app.
  - intros [|c a]; simpl; split; intros H; try reflexivity;
      try discriminate H. destruct (Hnonempty _ _ H).
Qed.

(** ** More on the loops and the grid *)

(** The body of a loop only ever sees counters below the limit that are
    the start plus a multiple of the step. *)
Lemma for_lt_visits (A : Type) (P : A -> Prop) (limit : N) (step : positive)
    (body : N -> A -> A) :
  (forall x a, (x < limit)%N -> (Npos step | x)%N -> P a -> P (body x a)) ->
  forall x acc, (Npos step | x)%N -> P acc -> P (for_lt limit step body x acc).
Proof.
  intros Hbody x.
  remember (N.to_nat (limit - x)) as k eqn:Hk. revert x Hk.
  induction k as [k IH] using lt_wf_ind. intros x Hk acc Hdiv Hacc.
  rewrite for_lt_step. destruct (x <? limit)%N eqn:Hlt; [|exact Hacc].
  apply N.ltb_lt in Hlt.
  apply (IH (N.to_nat (limit - (x + Npos step)))); [lia | reflexivity | |].
  - apply N.divide_add_r; [exact Hdiv | apply N.divide_refl].
  - apply Hbody; assumption.
Qed.

Lemma createDots_on_grid (w h : N) (f : AboutCanvas.Fields) :
  Forall (dot_on_grid w h (AboutCanvas.spacing f))
    (AboutCanvas.dots (AboutCanvas.createDots w h f)).
Proof.
  unfold AboutCanvas.createDots. cbn [AboutCanvas.dots].
  apply for_lt_visits; [|apply N.divide_0_r|constructor].
  intros x acc Hx Hdx Hacc.
  apply for_lt_visits; [|apply N.divide_0_r|exact Hacc].
  intros y acc' Hy Hdy Hacc'. apply Forall_app. split; [exact Hacc'|].
  constructor; [|constructor].
  unfold dot_on_grid, AboutCanvas.dot_at. simpl.
  split; [reflexivity|]. split; [reflexivity|].
  exists x, y. repeat split; assumption.
Qed.

(** X16: whatever the size and the spacing, the dots [createDots] makes,
    at setup and at each resize, rest on their origins, and the origins
    are grid points of the canvas: multiples of the spacing, below the
    width and below the height.  A resize thus also drops whatever
    displacement the mouse had given the dots. *)
Theorem grid_dots_start_on_the_grid :
  (forall (w h : N) (f : AboutCanvas.Fields),
     Forall (dot_on_grid w h (AboutCanvas.spacing f))
       (AboutCanvas.dots (AboutCanvas.createDots w h f))) /\
  (forall (p : Page) (c : Canvas AboutCanvas.Fields) (vw vh : N),
     Forall (dot_on_grid vw vh (AboutCanvas.spacing (fields c)))
       (entities AboutCanvas.dots
          (perform (effect := AboutCanvas.effect) (WindowResize vw vh)
             (p, Live c)))) /\
  (forall (id : string) (p : Page),
     Forall (dot_on_grid (innerWidth p) (innerHeight p) 50)
       (entities AboutCanvas.dots (new_AboutCanvas id p))).
Proof.
  split; [exact createDots_on_grid|]. split.
  - intros p c vw vh. unfold entities. cbn [perform fst snd lift resize_live].
    apply createDots_on_grid.
  - intros id p. unfold entities, new_AboutCanvas, constructor.
    destruct (negb _); [constructor|]. cbn [snd fields].
    apply (createDots_on_grid (innerWidth p) (innerHeight p)
             {| AboutCanvas.dots := []; AboutCanvas.spacing := 50 |}).
Qed.

(** ** The calls of a hero frame *)

Lemma connection_length (q p2 : HeroCanvas.Particle) :
  (length (HeroCanvas.connection q p2) <= 6)%nat.
Proof. unfold HeroCanvas.connection. destruct (lt_num _ _); simpl; lia. Qed.

Lemma connections_length (q : HeroCanvas.Particle) (rest : list HeroCanvas.Particle) :
  (length (flat_map (HeroCanvas.connection q) rest) <= 6 * length rest)%nat.
Proof.
  induction rest as [|p2 rest IH]; simpl; [lia|].
  rewrite length_app. pose proof (connection_length q p2). lia.
Qed.

(** X15: a hero frame tests each pair of particles once: for n particles
    it makes 3 calls per particle to paint it and at most 6 per pair to
    join two particles, so between 3 n and 3 n + 3 n (n - 1) = 3 n * n
    calls after setting the fill style. *)
Theorem hero_frame_calls_are_bounded (w h : N) (ps : list HeroCanvas.Particle) :
  (3 * length ps <= length (snd (HeroCanvas.each w h ps)))%nat /\
  (length (snd (HeroCanvas.each w h ps))
   <= 3 * length ps + 3 * (length ps * (length ps - 1)))%nat.
Proof.
  induction ps as [|q rest IH]; [simpl; lia|].
  cbn [HeroCanvas.each].
  destruct (HeroCanvas.each w h rest) as [rest' cs]. cbn [snd] in *.
  rewrite !length_app.
  pose proof (connections_length (HeroCanvas.advance w h q) rest) as Hc.
  cbn [length]. destruct IH as [IH1 IH2]. split; [lia|]. nia.
Qed.

(** ** Repeated reports of the observer *)

Lemma on_entry_twice (E : Type) (effect : Effect E) (b : bool)
    (pc : Page * Canvas E) :
  on_entry b (on_entry b pc) = on_entry b pc.
Proof.
  destruct pc as [p c].
  destruct (on_entry_agrees b p c) as [Hv Hh].
  destruct (on_entry b (p, c)) as [p' c'] eqn:He. cbn [snd] in Hv, Hh.
  unfold has_handle in Hh. destruct c' as [cw ch cid cv cf].
  cbn [isVisible animationId] in Hv, Hh. subst cv.
  destruct b; cbn [on_entry set_isVisible].
  - unfold start_live. cbn [animationId]. destruct cid; [reflexivity|discriminate].
  - unfold stop_live. cbn [animationId]. destruct cid; [discriminate|reflexivity].
Qed.

(** X17: a report the observer repeats changes nothing more: a callback
    whose last two entries agree leaves the page and the session as the
    callback with one of them does (no second drawing, no second frame
    request, no second cancellation), also when the reports come in two
    callbacks. *)
Theorem repeated_reports_count_once (E : Type) (effect : Effect E)
    (w : @World E) (entries : list bool) (b : bool) :
  perform (Intersection (entries ++ [b; b])) w =
    perform (Intersection (entries ++ [b])) w /\
  perform (Intersection [b]) (perform (Intersection (entries ++ [b])) w) =
    perform (Intersection (entries ++ [b])) w.
Proof.
  destruct w as [p [|c]]; [split; reflexivity|].
  cbn [perform fst snd]. 
  replace (entries ++ [b; b]) with ((entries ++ [b]) ++ [b])
    by (rewrite <- app_assoc; reflexivity).
  rewrite (on_intersection_last (entries ++ [b]) b p c).
  rewrite on_intersection_last.
  destruct (on_intersection entries p c) as [p' c'].
  rewrite on_entry_twice. split; [reflexivity|].
  destruct (on_entry b (p', c')) as [p2 c2] eqn:He.
  cbn [lift fst snd on_intersection fold_left].
  rewrite <- He, on_entry_twice, He. reflexivity.
Qed.

(** ** The further properties at work *)

Lemma only_the_observer_shows_witness :
  existsb observer_reports
    [CallStart; WindowResize 1024 768; CallAnimate; Taken 1; Frame 1] = false /\
  visible (new_HeroCanvas "hero-canvas" demo_page) = false /\
  running (run [CallStart; WindowResize 1024 768; CallAnimate; Taken 1; Frame 1]
             (new_HeroCanvas "hero-canvas" demo_page)) = false.
Proof.
  assert (Hno : existsb observer_reports
                  [CallStart; WindowResize 1024 768; CallAnimate; Taken 1; Frame 1]
                = false) by reflexivity.
  assert (Hv : visible (new_HeroCanvas "hero-canvas" demo_page) = false)
    by reflexivity.
  assert (Hr : running (new_HeroCanvas "hero-canvas" demo_page) = false)
    by reflexivity.
  destruct (only_the_observer_shows (new_HeroCanvas "hero-canvas" demo_page)
              [CallStart; WindowResize 1024 768; CallAnimate; Taken 1; Frame 1]
              Hno) as [_ Hd].
  destruct (Hd Hv Hr) as [Hidle _].
  split; [exact Hno|]. split; [exact Hv | exact Hidle].
Defined.

Lemma visible_frame_witness :
  isVisible demo_canvas = true /\
  nextHandle (frames (fst (animate (demo_page, Live demo_canvas)))) = 2%positive /\
  queued (frames (fst (animate (demo_page, Live demo_canvas)))) = [1%positive].
Proof.
  destruct visible_frame_clears_then_requests as (Hframe & Happ & Hquiet).
  destruct Happ as [Happ _]. destruct Hquiet as [Hquiet _].
  assert (Hv : isVisible demo_canvas = true) by reflexivity.
  destruct (Hframe _ _ demo_page demo_canvas Happ Hquiet Hv)
    as (_ & _ & Hq & Hn).
  split; [exact Hv|]. split; [exact Hn | exact Hq].
Defined.

Lemma hidden_sessions_witness :
  driven [Intersection [true]; Taken 1; Frame 1; Intersection [false]] = true /\
  frames_follow_visibility
    (run [Intersection [true]; Taken 1; Frame 1; Intersection [false]]
       (new_HeroCanvas "hero-canvas" demo_page)).
Proof.
  assert (Hd : driven [Intersection [true]; Taken 1; Frame 1; Intersection [false]]
               = true) by reflexivity.
  destruct (hidden_sessions_hold_no_frame "hero-canvas"
              ["hero-canvas"; "canvas-about"; "canvas-skills"; "canvas-projects";
               "canvas-contact"]%string
              800%N 600%N 0 (fun _ => zero01) 1%positive
              [Intersection [true]; Taken 1; Frame 1; Intersection [false]] Hd)
    as [Hhero _].
  split; [exact Hd | exact Hhero].
Defined.

Lemma hero_particles_witness :
  existsb resizes [Intersection [true]; Taken 1; Frame 1] = false /\
  keeps (fun w h f => Forall (hero_particle_near w h) (HeroCanvas.particles f))
    (run [Intersection [true]; Taken 1; Frame 1]
       (new_HeroCanvas "hero-canvas" demo_page)).
Proof.
  assert (Hno : existsb resizes [Intersection [true]; Taken 1; Frame 1] = false)
    by reflexivity.
  destruct (hero_particles_stay_tethered "hero-canvas" demo_page
              [Intersection [true]; Taken 1; Frame 1] Hno) as [_ Hnear].
  split; [exact Hno | exact Hnear].
Defined.

Lemma shapes_sidestep_witness :
  0 < SkillsCanvas.dist (mouse demo_page) (rectTop demo_page)
        (SkillsCanvas.drift demo_shape) /\
  SkillsCanvas.x (fst (SkillsCanvas.draw_shape 600 demo_shape demo_page)) = 100.
Proof.
  assert (Hpos : 0 < SkillsCanvas.dist (mouse demo_page) (rectTop demo_page)
                       (SkillsCanvas.drift demo_shape)).
  { unfold SkillsCanvas.dist. apply sqrt_lt_R0.
    unfold SkillsCanvas.dx, SkillsCanvas.dy. simpl. lra. }
  destruct (shapes_sidestep_by_at_most_one 600 demo_shape demo_page Hpos)
    as (_ & _ & _ & Hfar).
  split; [exact Hpos|]. apply Hfar.
  unfold SkillsCanvas.dist.
  rewrite <- (sqrt_square 200) by lra. apply sqrt_le_1_alt.
  unfold SkillsCanvas.dx, SkillsCanvas.dy. simpl. lra.
Defined.

Lemma gravity_particles_rest_witness :
  forallb mouse_still [Intersection [true]; Taken 1; Frame 1; Scroll 250] = true /\
  Forall (fun q => ContactCanvas.vx q = 0 /\ ContactCanvas.vy q = 0)
    (entities ContactCanvas.particles
       (run [Intersection [true]; Taken 1; Frame 1; Scroll 250]
          (new_ContactCanvas "canvas-contact" demo_page))).
Proof.
  assert (Hstill : forallb mouse_still
                     [Intersection [true]; Taken 1; Frame 1; Scroll 250] = true)
    by reflexivity.
  split; [exact Hstill|].
  exact (gravity_particles_rest_without_the_mouse "canvas-contact"
           ["hero-canvas"; "canvas-about"; "canvas-skills"; "canvas-projects";
            "canvas-contact"]%string
           800%N 600%N 0 (fun _ => zero01) 1%positive
           [Intersection [true]; Taken 1; Frame 1; Scroll 250] Hstill).
Defined.

Lemma easing_witness :
  0 <= 1 /\ 1 <= 1 /\ easing 0 <= easing 1 /\ 0 < easing 1 /\ easing 1 = 1.
Proof.
  destruct easing_rises_to_one as (_ & _ & Hmono & Hfloor & Hone).
  assert (H01 : 0 <= 1) by lra. assert (H11 : 1 <= 1) by lra.
  split; [exact H01|]. split; [exact H11|].
  split; [exact (Hmono 0 1 H01)|]. split; [exact (Hfloor 1 H01) | exact (Hone 1 H11)].
Defined.

Lemma splitText_markup_witness :
  splitText_markup "a b" = splitText_markup "a b" /\
  splitText_markup "" = EmptyString /\
  "a b"%string = "a b"%string.
Proof.
  destruct splitText_markup_is_faithful as (Hinj & _ & Hempty).
  assert (H : splitText_markup "a b" = splitText_markup "a b") by reflexivity.
  split; [exact H|]. split; [apply Hempty; reflexivity | exact (Hinj _ _ H)].
Defined.
